(** * Semantic-analysis driver of lib/Sema/TypeChecker.cpp

    Shallow embedding of the scheduler loop
    [typeCheckFunctionsAndExternalDecls], of [bindExtensionDecl], of
    [mayConformToKnownProtocol], of [TypeChecker::getProtocol] and
    [TypeChecker::getLiteralProtocol], of the [TryAddFinal] walker, of the
    caches of [getStdlibModule] and [lookupBoolType], and of the entry
    points [performTypeChecking] and [typeCheckExternalDefinitions]. *)

From Stdlib Require Import String Bool Arith Lia List Permutation.
Import ListNotations.

(** ** Worklist scheduler *)
Module Scheduler.

(** Declarations as they appear in [ASTContext::ExternalDefinitions].
    Function declarations and nominal type declarations are identified by
    a number; [DOther] is any other kind of declaration. *)
Inductive Decl : Type :=
| DFunc (f : nat)
| DNominal (n : nat)
| DOther (n : nat).

(** The mutable part of the type checker and of the AST context that the
    loop reads and writes.  [definedFunctions] and
    [implicitlyDefinedFunctions] hold [AbstractFunctionDecl *];
    [ValidatedTypes] is a vector used as a stack: [ValidatedTypes] below
    lists its elements from [back()] to front, so [push_back x] is [x :: s]
    and [back()]/[pop_back()] read and drop the head. *)
Record State : Type := mkState {
  ExternalDefinitions : list Decl;
  LastCheckedExternalDefinition : nat;
  definedFunctions : list nat;
  implicitlyDefinedFunctions : list nat;
  ValidatedTypes : list nat
}.

(** What a collaborator ([typeCheckAbstractFunctionBody],
    [handleExternalDecl], [computeCaptures], [typeCheckDecl]) adds to the
    work collections: the collections are append-only, so a collaborator's
    effect on them is the list of items it appends to each one (for
    [ValidatedTypes], in [push_back] order). *)
Record Growth : Type := mkGrowth {
  gr_ext : list Decl;
  gr_funcs : list nat;
  gr_impl : list nat;
  gr_valid : list nat
}.

Definition no_growth : Growth := mkGrowth [] [] [] [].

(** Collaborator invocations, in the order the loop makes them. *)
Inductive Event : Type :=
| EvExtBody (f : nat)      (* typeCheckAbstractFunctionBody on an external *)
| EvExtHandle (n : nat)    (* handleExternalDecl *)
| EvBody (f : nat)         (* typeCheckAbstractFunctionBody on definedFunctions *)
| EvCaptures (f : nat)     (* computeCaptures *)
| EvFirstPass (n : nat).   (* typeCheckDecl(nominal, isFirstPass=true) *)

(** Observation log: the trace of invocations, and (ghost) everything the
    collaborators appended to each collection. *)
Record Log : Type := mkLog {
  trace : list Event;
  lg_ext : list Decl;
  lg_funcs : list nat;
  lg_impl : list nat;
  lg_valid : list nat
}.

Definition empty_log : Log := mkLog [] [] [] [] [].

Definition apply_growth (g : Growth) (st : State) : State :=
  mkState (ExternalDefinitions st ++ gr_ext g)
          (LastCheckedExternalDefinition st)
          (definedFunctions st ++ gr_funcs g)
          (implicitlyDefinedFunctions st ++ gr_impl g)
          (rev (gr_valid g) ++ ValidatedTypes st).

Definition log_event (e : Event) (g : Growth) (lg : Log) : Log :=
  mkLog (trace lg ++ [e]) (lg_ext lg ++ gr_ext g) (lg_funcs lg ++ gr_funcs g)
        (lg_impl lg ++ gr_impl g) (lg_valid lg ++ gr_valid g).

Section Loop.

(** The collaborators, each a function of the current state. *)
Variable typeCheckAbstractFunctionBody : nat -> State -> Growth.
Variable handleExternalDecl : nat -> State -> Growth.
Variable computeCaptures : nat -> State -> Growth.
Variable typeCheckDecl : nat -> State -> Growth.

Definition call (e : Event) (g : Growth) (st : State) (lg : Log) : State * Log :=
  (apply_growth g st, log_event e g lg).

(** One iteration of the external-definition [for] loop body.
    [llvm_unreachable] on another kind is a crash ([None]). *)
Definition ext_step (d : Decl) (st : State) (lg : Log) : option (State * Log) :=
  match d with
  | DFunc f => Some (call (EvExtBody f) (typeCheckAbstractFunctionBody f st) st lg)
  | DNominal n => Some (call (EvExtHandle n) (handleExternalDecl n st) st lg)
  | DOther _ => None
  end.

(** [for (n = size; cur != n; ++cur)], run for [k] iterations; reading
    past the end of the vector is a crash ([None]). *)
Fixpoint drain_ext (k cur : nat) (st : State) (lg : Log) : option (nat * State * Log) :=
  match k with
  | 0 => Some (cur, st, lg)
  | S k' =>
      match nth_error (ExternalDefinitions st) cur with
      | None => None
      | Some d =>
          match ext_step d st lg with
          | None => None
          | Some (st', lg') => drain_ext k' (S cur) st' lg'
          end
      end
  end.

(** The loop starts at [cur] and stops when [cur] reaches [n]; when
    [cur > n] the loop runs past the end of the vector. *)
Definition ext_loop (cur : nat) (st : State) (lg : Log) : option (nat * State * Log) :=
  let n := length (ExternalDefinitions st) in
  if n <? cur then None else drain_ext (n - cur) cur st lg.

Fixpoint drain_funcs (k cur : nat) (st : State) (lg : Log) : option (nat * State * Log) :=
  match k with
  | 0 => Some (cur, st, lg)
  | S k' =>
      match nth_error (definedFunctions st) cur with
      | None => None
      | Some f =>
          let '(st', lg') := call (EvBody f) (typeCheckAbstractFunctionBody f st) st lg in
          drain_funcs k' (S cur) st' lg'
      end
  end.

Definition func_loop (cur : nat) (st : State) (lg : Log) : option (nat * State * Log) :=
  let n := length (definedFunctions st) in
  if n <? cur then None else drain_funcs (n - cur) cur st lg.

(** [for (i = cur; i > prev; --i) computeCaptures(definedFunctions[i-1])],
    run for [k = cur - prev] iterations. *)
Fixpoint captures_loop (k i : nat) (st : State) (lg : Log) : option (State * Log) :=
  match k with
  | 0 => Some (st, lg)
  | S k' =>
      match nth_error (definedFunctions st) (i - 1) with
      | None => None
      | Some f =>
          let '(st', lg') := call (EvCaptures f) (computeCaptures f st) st lg in
          captures_loop k' (i - 1) st' lg'
      end
  end.

(** [while (!ValidatedTypes.empty()) { pop; typeCheckDecl }]; [fuel]
    bounds the number of iterations (running out is non-termination). *)
Fixpoint drain_validated (fuel : nat) (st : State) (lg : Log) : option (State * Log) :=
  match ValidatedTypes st with
  | [] => Some (st, lg)
  | n :: rest =>
      match fuel with
      | 0 => None
      | S fuel' =>
          let st1 := mkState (ExternalDefinitions st) (LastCheckedExternalDefinition st)
                       (definedFunctions st) (implicitlyDefinedFunctions st) rest in
          let '(st2, lg2) := call (EvFirstPass n) (typeCheckDecl n st1) st1 lg in
          drain_validated fuel' st2 lg2
      end
  end.

(** [definedFunctions.insert(end, implicit...); implicit.clear()]. *)
Definition move_implicit (st : State) : State :=
  mkState (ExternalDefinitions st) (LastCheckedExternalDefinition st)
          (definedFunctions st ++ implicitlyDefinedFunctions st) [] (ValidatedTypes st).

(** The body of the [do ... while] loop. *)
Definition iteration (fuel fidx cur : nat) (st : State) (lg : Log)
  : option (nat * nat * State * Log) :=
  match ext_loop cur st lg with
  | None => None
  | Some (cur1, st1, lg1) =>
      let previousFunctionIdx := fidx in
      match func_loop fidx st1 lg1 with
      | None => None
      | Some (fidx2, st2, lg2) =>
          match captures_loop (fidx2 - previousFunctionIdx) fidx2 st2 lg2 with
          | None => None
          | Some (st3, lg3) =>
              match drain_validated fuel st3 lg3 with
              | None => None
              | Some (st4, lg4) => Some (fidx2, cur1, move_implicit st4, lg4)
              end
          end
      end
  end.

(** The [do ... while] loop; [fuel] bounds the number of iterations. *)
Fixpoint sched (fuel fidx cur : nat) (st : State) (lg : Log)
  : option (nat * nat * State * Log) :=
  match fuel with
  | 0 => None
  | S fuel' =>
      match iteration fuel fidx cur st lg with
      | None => None
      | Some (fidx', cur', st', lg') =>
          if (fidx' <? length (definedFunctions st'))
             || (cur' <? length (ExternalDefinitions st'))
          then sched fuel' fidx' cur' st' lg'
          else Some (fidx', cur', st', lg')
      end
  end.

Definition typeCheckFunctionsAndExternalDecls (fuel : nat) (st : State)
  : option (State * Log) :=
  match sched fuel 0 (LastCheckedExternalDefinition st) st empty_log with
  | None => None
  | Some (_, cur, st', lg) =>
      Some (mkState (ExternalDefinitions st') cur (definedFunctions st')
                    (implicitlyDefinedFunctions st') (ValidatedTypes st'), lg)
  end.


End Loop.

(** Projections of the trace on each kind of invocation. *)
Definition ev_body (e : Event) : list nat :=
  match e with EvBody f => [f] | _ => [] end.
Definition ev_ext (e : Event) : list Decl :=
  match e with EvExtBody f => [DFunc f] | EvExtHandle n => [DNominal n] | _ => [] end.
Definition ev_captures (e : Event) : list nat :=
  match e with EvCaptures f => [f] | _ => [] end.
Definition ev_first (e : Event) : list nat :=
  match e with EvFirstPass n => [n] | _ => [] end.

Definition bodies (tr : list Event) : list nat := flat_map ev_body tr.
Definition ext_processed (tr : list Event) : list Decl := flat_map ev_ext tr.
Definition captured (tr : list Event) : list nat := flat_map ev_captures tr.
Definition first_passes (tr : list Event) : list nat := flat_map ev_first tr.

End Scheduler.

(** ** Extension binding: [bindExtensionDecl] *)
Module Extension.

Definition Identifier := string.
(** [Context.Id_Type]. *)
Definition Id_Type : Identifier := "Type"%string.
Definition SourceLoc := nat.

(** A generic parameter list, possibly chained to an outer one
    ([setOuterParameters]). *)
#[warnings="-register-all"]
Inductive GenericParamList : Type := mkGPL {
  gpl_params : list Identifier;
  gpl_outer : option GenericParamList
}.

Definition gpl_size (g : GenericParamList) : nat := length (gpl_params g).

Record NominalTypeDecl : Type := mkNominal {
  nominal_id : nat;
  nominal_GenericParams : option GenericParamList
}.

(** Resolved types: nominal, unbound generic, the error type, and any
    other kind of type (function, tuple, ...). *)
Inductive Ty : Type :=
| TyNominal (d : NominalTypeDecl)
| TyUnboundGeneric (d : NominalTypeDecl)
| TyError
| TyOther (n : nat).

(** The declaration a component was bound to when no type was. *)
Inductive BoundDecl : Type :=
| BDNominal (d : NominalTypeDecl)
| BDOther (n : nat).

(** What [validateType] recorded on one [SimpleIdentTypeRepr]
    ([getBoundType], else [getBoundDecl], else nothing). *)
Inductive Binding : Type :=
| BoundType (t : Ty)
| BoundDeclOnly (d : BoundDecl)
| NotBound.

Record RefComponent : Type := mkRef {
  ref_Name : Identifier;
  ref_NameLoc : SourceLoc;
  ref_GenericParams : option GenericParamList
}.

Record ExtensionDecl : Type := mkExtension {
  ext_id : nat;
  ext_DeclContext : nat;
  ext_RefComponents : list RefComponent;
  ext_ExtendedType : option Ty;
  ext_Invalid : bool
}.

Inductive Diag : Type :=
| extension_metatype (loc : SourceLoc)
| extension_generic_params_for_non_generic (loc : SourceLoc) (name : Identifier)
| extension_generic_params_for_non_generic_type (loc : SourceLoc) (d : NominalTypeDecl)
| extended_type_here (d : NominalTypeDecl)   (* a note *)
| extension_generic_wrong_number_of_parameters (loc : SourceLoc) (d : NominalTypeDecl)
    (excess : bool) (numHave numExpected : nat)
| non_nominal_extension (ext : nat) (t : Ty).

(** Invocations of the type-validation collaborator. *)
Inductive Call : Type :=
| CallValidateType (components : list Identifier) (dc : nat).

(** The type checker's observable state: emitted diagnostics, collaborator
    calls, and the extension lists of the nominal types, as the pairs
    (nominal type, extension) in the order [addExtension] appended them. *)
Record TCState : Type := mkTC {
  tc_diags : list Diag;
  tc_calls : list Call;
  tc_extensions : list (nat * nat)
}.

(** Outcome of [TC.validateType(typeLoc, dc, TR_AllowUnboundGenerics)]:
    failure ([true] in the source), or the binding of each component (by
    index) and the resolved type [typeLoc.getType()]. *)
Inductive ValidateResult : Type :=
| ValidateFailed
| Validated (bound : nat -> Binding) (t : Ty).

Definition diagnose (d : Diag) (st : TCState) : TCState :=
  mkTC (tc_diags st ++ [d]) (tc_calls st) (tc_extensions st).

Definition diagnose_all (ds : list Diag) (st : TCState) : TCState :=
  mkTC (tc_diags st ++ ds) (tc_calls st) (tc_extensions st).

Definition record_call (c : Call) (st : TCState) : TCState :=
  mkTC (tc_diags st) (tc_calls st ++ [c]) (tc_extensions st).

Definition addExtension (d : NominalTypeDecl) (ed : ExtensionDecl) (st : TCState) : TCState :=
  mkTC (tc_diags st) (tc_calls st) (tc_extensions st ++ [(nominal_id d, ext_id ed)]).

(** [ED->setInvalid(); ED->setExtendedType(ErrorType::get(...))]. *)
Definition set_error (ed : ExtensionDecl) : ExtensionDecl :=
  mkExtension (ext_id ed) (ext_DeclContext ed) (ext_RefComponents ed) (Some TyError) true.

Definition setExtendedType (t : Ty) (ed : ExtensionDecl) : ExtensionDecl :=
  mkExtension (ext_id ed) (ext_DeclContext ed) (ext_RefComponents ed) (Some t) (ext_Invalid ed).

Definition set_components (refs : list RefComponent) (ed : ExtensionDecl) : ExtensionDecl :=
  mkExtension (ext_id ed) (ext_DeclContext ed) refs (ext_ExtendedType ed) (ext_Invalid ed).

Definition set_params (g : option GenericParamList) (ref : RefComponent) : RefComponent :=
  mkRef (ref_Name ref) (ref_NameLoc ref) g.

(** The first loop: one [SimpleIdentTypeRepr] per component; a component
    named [Type] after the first one stops the loop ([inl]). *)
Fixpoint synthesize_components (refs : list RefComponent) (components : list Identifier)
  : RefComponent + list Identifier :=
  match refs with
  | [] => inr components
  | ref :: rest =>
      if String.eqb (ref_Name ref) Id_Type && negb (match components with [] => true | _ => false end)
      then inl ref
      else synthesize_components rest (components ++ [ref_Name ref])
  end.

(** The nominal type declaration a component refers to. *)
Definition typeDecl_of (b : Binding) : option NominalTypeDecl :=
  match b with
  | BoundType (TyUnboundGeneric d) => Some d
  | BoundType (TyNominal d) => Some d
  | BoundType _ => None
  | BoundDeclOnly (BDNominal d) => Some d
  | BoundDeclOnly (BDOther _) => None
  | NotBound => None
  end.

(** The second loop over the components, from index [i], with the running
    outer generic parameter list.  Returns the diagnostics emitted, the
    components as updated (parameters dropped or chained), and whether the
    loop returned early. *)
Fixpoint check_components (bound : nat -> Binding) (i : nat)
  (outer : option GenericParamList) (refs : list RefComponent)
  : list Diag * list RefComponent * bool :=
  match refs with
  | [] => ([], [], false)
  | ref :: rest =>
      match typeDecl_of (bound i) with
      | None =>
          match ref_GenericParams ref with
          | Some _ =>
              let '(ds, rs, ab) := check_components bound (S i) outer rest in
              (extension_generic_params_for_non_generic (ref_NameLoc ref) (ref_Name ref) :: ds,
               set_params None ref :: rs, ab)
          | None =>
              let '(ds, rs, ab) := check_components bound (S i) outer rest in
              (ds, ref :: rs, ab)
          end
      | Some typeDecl =>
          match nominal_GenericParams typeDecl, ref_GenericParams ref with
          | Some _, None =>
              let '(ds, rs, ab) := check_components bound (S i) outer rest in
              (ds, ref :: rs, ab)
          | None, Some _ =>
              let '(ds, rs, ab) := check_components bound (S i) outer rest in
              (extension_generic_params_for_non_generic_type (ref_NameLoc ref) typeDecl
                 :: extended_type_here typeDecl :: ds,
               set_params None ref :: rs, ab)
          | None, None =>
              let '(ds, rs, ab) := check_components bound (S i) outer rest in
              (ds, ref :: rs, ab)
          | Some tgp, Some gp =>
              let numHave := gpl_size gp in
              let numExpected := gpl_size tgp in
              if negb (numHave =? numExpected) then
                ([extension_generic_wrong_number_of_parameters (ref_NameLoc ref) typeDecl
                    (numExpected <? numHave) numHave numExpected],
                 ref :: rest, true)
              else
                let gp' := mkGPL (gpl_params gp) outer in
                let '(ds, rs, ab) := check_components bound (S i) (Some gp') rest in
                (ds, set_params (Some gp') ref :: rs, ab)
          end
      end
  end.

Section Bind.

Variable validateType : list Identifier -> nat -> ValidateResult.

Definition bindExtensionDecl (ED : ExtensionDecl) (st : TCState) : ExtensionDecl * TCState :=
  match ext_ExtendedType ED with
  | Some _ => (ED, st)
  | None =>
      let dc := ext_DeclContext ED in
      match synthesize_components (ext_RefComponents ED) [] with
      | inl ref => (set_error ED, diagnose (extension_metatype (ref_NameLoc ref)) st)
      | inr components =>
          let st1 := record_call (CallValidateType components dc) st in
          match validateType components dc with
          | ValidateFailed => (set_error ED, st1)
          | Validated bound extendedTy =>
              let '(ds, refs', aborted) := check_components bound 0 None (ext_RefComponents ED) in
              let ED1 := set_components refs' ED in
              let st2 := diagnose_all ds st1 in
              if aborted then (set_error ED1, st2)
              else
                match extendedTy with
                | TyNominal d | TyUnboundGeneric d =>
                    (setExtendedType extendedTy ED1, addExtension d ED1 st2)
                | _ => (set_error ED1, diagnose (non_nominal_extension (ext_id ED) extendedTy) st2)
                end
          end
      end
  end.

End Bind.

(** Both the component and the nominal type it denotes carry generic
    parameter lists, of different sizes. *)
Definition arity_mismatch (bound : nat -> Binding) (i : nat) (ref : RefComponent) : bool :=
  match typeDecl_of (bound i) with
  | Some td =>
      match nominal_GenericParams td, ref_GenericParams ref with
      | Some tgp, Some gp => negb (gpl_size gp =? gpl_size tgp)
      | _, _ => false
      end
  | None => false
  end.

(** The generic parameter lists kept on the components, read outer to
    inner, each chained ([gpl_outer]) to the previous kept one. *)
Fixpoint chained (outer : option GenericParamList) (refs : list RefComponent) : Prop :=
  match refs with
  | [] => True
  | r :: rest =>
      match ref_GenericParams r with
      | None => chained outer rest
      | Some gp => gpl_outer gp = outer /\ chained (Some gp) rest
      end
  end.

End Extension.

(** Concrete inputs for the extension binder: [S] is a non-generic struct
    and [G2] a generic type with two parameters. *)
Module ExtensionExamples.
Import Extension.

Definition S : NominalTypeDecl := mkNominal 7 None.
Definition G2 : NominalTypeDecl := mkNominal 8 (Some (mkGPL ["T"; "U"]%string None)).

(** [extension S<T>]. *)
Definition ext_S1 : ExtensionDecl :=
  mkExtension 0 0 [mkRef "S"%string 1 (Some (mkGPL ["T"]%string None))] None false.
Definition validate_S (_ : list Identifier) (_ : nat) : ValidateResult :=
  Validated (fun _ => BoundType (TyNominal S)) (TyNominal S).

(** [extension G2<T>] and [extension G2<A, B>]: wrong and right arity. *)
Definition ext_G2_1 : ExtensionDecl :=
  mkExtension 1 0 [mkRef "G2"%string 2 (Some (mkGPL ["T"]%string None))] None false.
Definition ext_G2_2 : ExtensionDecl :=
  mkExtension 2 0 [mkRef "G2"%string 2 (Some (mkGPL ["A"; "B"]%string None))] None false.
Definition validate_G2 (_ : list Identifier) (_ : nat) : ValidateResult :=
  Validated (fun _ => BoundType (TyUnboundGeneric G2)) (TyUnboundGeneric G2).

(** [extension S.Type]. *)
Definition ext_S_Type : ExtensionDecl :=
  mkExtension 3 0 [mkRef "S"%string 1 None; mkRef "Type"%string 3 None] None false.

(** [extension Outer<A>.Inner<B>], both generic with one parameter. *)
Definition Outer : NominalTypeDecl := mkNominal 9 (Some (mkGPL ["X"]%string None)).
Definition Inner : NominalTypeDecl := mkNominal 10 (Some (mkGPL ["Y"]%string None)).
Definition ext_nested : ExtensionDecl :=
  mkExtension 4 0 [mkRef "Outer"%string 4 (Some (mkGPL ["A"]%string None));
                   mkRef "Inner"%string 5 (Some (mkGPL ["B"]%string None))] None false.
Definition validate_nested (_ : list Identifier) (_ : nat) : ValidateResult :=
  Validated (fun i => match i with
                      | 0 => BoundType (TyUnboundGeneric Outer)
                      | _ => BoundType (TyUnboundGeneric Inner)
                      end) (TyUnboundGeneric Inner).
Definition validate_fail (_ : list Identifier) (_ : nat) : ValidateResult := ValidateFailed.

End ExtensionExamples.

(** ** Capability lookup: [TypeChecker::getProtocol] and
    [TypeChecker::getLiteralProtocol] *)
Module Protocols.

(** The compiler-known protocols [getLiteralProtocol] asks for. *)
Inductive KnownProtocolKind : Type :=
| ArrayLiteralConvertible
| DictionaryLiteralConvertible
| NilLiteralConvertible
| IntegerLiteralConvertible
| FloatLiteralConvertible
| BooleanLiteralConvertible
| CharacterLiteralConvertible
| ExtendedGraphemeClusterLiteralConvertible
| StringLiteralConvertible
| StringInterpolationConvertible.

Record ProtocolDecl : Type := mkProtocol {
  protocol_kind : KnownProtocolKind;
  protocol_hasType : bool
}.

(** A source location; [None] is an invalid location. *)
Definition SourceLoc := option nat.

Inductive Diag : Type :=
| missing_protocol (kind : KnownProtocolKind).

Record PState : Type := mkPState {
  ps_diags : list Diag;
  ps_validated : list ProtocolDecl   (* validateDecl calls *)
}.

Inductive MagicKind : Type := File | Function | Line | Column.

(** Expression kinds: [ArrayExpr], [DictionaryExpr], the [LiteralExpr]
    subclasses, and any other expression. *)
Inductive ExprKind : Type :=
| ArrayExpr
| DictionaryExpr
| NilLiteralExpr
| IntegerLiteralExpr
| FloatLiteralExpr
| BooleanLiteralExpr
| CharacterLiteralExpr
| StringLiteralExpr (isSingleExtendedGraphemeCluster : bool)
| InterpolatedStringLiteralExpr
| MagicIdentifierLiteralExpr (k : MagicKind)
| OtherExpr (n : nat).

Record Expr : Type := mkExpr {
  expr_loc : SourceLoc;
  expr_kind : ExprKind
}.

Definition isLiteralExpr (k : ExprKind) : bool :=
  match k with
  | ArrayExpr | DictionaryExpr | OtherExpr _ => false
  | _ => true
  end.

Section Lookup.

(** [Context.getProtocol(kind)]: the protocols registered so far. *)
Variable registry : KnownProtocolKind -> option ProtocolDecl.
(** [validateDecl(protocol)] followed by [protocol->isInvalid()]. *)
Variable validateDecl_invalid : ProtocolDecl -> bool.

Definition getProtocol (loc : SourceLoc) (kind : KnownProtocolKind) (st : PState)
  : option ProtocolDecl * PState :=
  let protocol := registry kind in
  let st1 :=
    match protocol, loc with
    | None, Some _ => mkPState (ps_diags st ++ [missing_protocol kind]) (ps_validated st)
    | _, _ => st
    end in
  match protocol with
  | Some p =>
      if negb (protocol_hasType p) then
        let st2 := mkPState (ps_diags st1) (ps_validated st1 ++ [p]) in
        if validateDecl_invalid p then (None, st2) else (Some p, st2)
      else (Some p, st1)
  | None => (None, st1)
  end.

Definition getLiteralProtocol (expr : Expr) (st : PState) : option ProtocolDecl * PState :=
  let loc := expr_loc expr in
  match expr_kind expr with
  | ArrayExpr => getProtocol loc ArrayLiteralConvertible st
  | DictionaryExpr => getProtocol loc DictionaryLiteralConvertible st
  | k =>
      if negb (isLiteralExpr k) then (None, st) else
      match k with
      | NilLiteralExpr => getProtocol loc NilLiteralConvertible st
      | IntegerLiteralExpr => getProtocol loc IntegerLiteralConvertible st
      | FloatLiteralExpr => getProtocol loc FloatLiteralConvertible st
      | BooleanLiteralExpr => getProtocol loc BooleanLiteralConvertible st
      | CharacterLiteralExpr => getProtocol loc CharacterLiteralConvertible st
      | StringLiteralExpr single =>
          if single then getProtocol loc ExtendedGraphemeClusterLiteralConvertible st
          else getProtocol loc StringLiteralConvertible st
      | InterpolatedStringLiteralExpr => getProtocol loc StringInterpolationConvertible st
      | MagicIdentifierLiteralExpr File
      | MagicIdentifierLiteralExpr Function => getProtocol loc StringLiteralConvertible st
      | MagicIdentifierLiteralExpr Line
      | MagicIdentifierLiteralExpr Column => getProtocol loc IntegerLiteralConvertible st
      | _ => (None, st)
      end
  end.

End Lookup.

(** The capability table of the specification (section 4.4), row by row. *)
Definition spec_literal_capability (k : ExprKind) : option KnownProtocolKind :=
  match k with
  | NilLiteralExpr => Some NilLiteralConvertible
  | IntegerLiteralExpr => Some IntegerLiteralConvertible
  | FloatLiteralExpr => Some FloatLiteralConvertible
  | BooleanLiteralExpr => Some BooleanLiteralConvertible
  | StringLiteralExpr true => Some ExtendedGraphemeClusterLiteralConvertible
  | StringLiteralExpr false => Some StringLiteralConvertible
  | InterpolatedStringLiteralExpr => Some StringInterpolationConvertible
  | ArrayExpr => Some ArrayLiteralConvertible
  | DictionaryExpr => Some DictionaryLiteralConvertible
  | MagicIdentifierLiteralExpr File | MagicIdentifierLiteralExpr Function =>
      Some StringLiteralConvertible
  | MagicIdentifierLiteralExpr Line | MagicIdentifierLiteralExpr Column =>
      Some IntegerLiteralConvertible
  | CharacterLiteralExpr => None
  | OtherExpr _ => None
  end.

(** The same table with the row the code adds: character literal to
    character-literal-constructible. *)
Definition literal_capability (k : ExprKind) : option KnownProtocolKind :=
  match k with
  | CharacterLiteralExpr => Some CharacterLiteralConvertible
  | k => spec_literal_capability k
  end.

(** Registries: every literal protocol loaded and validated, or none. *)
Definition full_registry (k : KnownProtocolKind) : option ProtocolDecl :=
  Some (mkProtocol k true).
Definition empty_registry (_ : KnownProtocolKind) : option ProtocolDecl := None.
Definition never_invalid (_ : ProtocolDecl) : bool := false.

End Protocols.

(** ** Syntactic conformance scan: [mayConformToKnownProtocol] *)
Module Conformance.

(** One component of an identifier type representation [A.B<C>.D]. *)
Inductive ComponentIdentTypeRepr : Type :=
| SimpleIdentTypeRepr (id : string)
| GenericIdentTypeRepr (id : string) (args : list string).

(** An [IdentTypeRepr] has at least one component. *)
Inductive TypeRepr : Type :=
| IdentTypeRepr (first : ComponentIdentTypeRepr) (rest : list ComponentIdentTypeRepr)
| OtherTypeRepr (n : nat).

(** A [TypeLoc] whose representation may be missing. *)
Definition TypeLoc := option TypeRepr.

Record InheritingDecl : Type := mkInheritingDecl {
  getInherited : list TypeLoc
}.

Section Scan.

(** The names listed by [KnownProtocols.def]. *)
Variable knownProtocolNames : list string.

Definition matchesKnownProtocol (name : string) : bool :=
  existsb (String.eqb name) knownProtocolNames.

Fixpoint scanInherited (inherited : list TypeLoc) : bool :=
  match inherited with
  | [] => false
  | tl :: rest =>
      match tl with
      | Some (IdentTypeRepr c cs) =>
          match last (c :: cs) c with
          | SimpleIdentTypeRepr id =>
              if matchesKnownProtocol id then true else scanInherited rest
          | GenericIdentTypeRepr _ _ => scanInherited rest
          end
      | _ => scanInherited rest
      end
  end.

Definition mayConformToKnownProtocol (D : InheritingDecl) : bool :=
  scanInherited (getInherited D).

End Scan.

End Conformance.

(** ** Sealing pass: [TryAddFinal] and [performWholeModuleChecks] *)
Module Sealing.

Inductive Accessibility : Type := Private | Internal | Public.

Inductive AccessorKind : Type := IsGetter | IsSetter | IsWillSet | IsDidSet.

(** Which subclass of [ValueDecl] a declaration is.  [KStorage] is an
    [AbstractStorageDecl], [KFunc] a [FuncDecl]. *)
Inductive ValueKind : Type :=
| KConstructor
| KDestructor
| KStorage
| KFunc
| KClass (isObjC : bool)
| KOtherValue.

(** [vd_dynamic] is [Some implicit] when a [DynamicAttr] is attached;
    [vd_accessor] is, for an accessor [FuncDecl], its kind and storage
    declaration; [vd_inClass] is [isInClass] of the declaration context. *)
#[warnings="-register-all"]
Inductive ValueDecl : Type := mkValueDecl {
  vd_id : nat;
  vd_kind : ValueKind;
  vd_final : bool;
  vd_invalid : bool;
  vd_access : option Accessibility;
  vd_dynamic : option bool;
  vd_overriddenDecl : option ValueDecl;
  vd_accessor : option (AccessorKind * ValueDecl);
  vd_isOverridden : bool;
  vd_inClass : bool
}.

Definition hasAccessibility (v : ValueDecl) : bool :=
  match vd_access v with Some _ => true | None => false end.

Fixpoint isInferredDynamic (v : ValueDecl) : bool :=
  match v with
  | {| vd_kind := k; vd_dynamic := dyn; vd_overriddenDecl := ov;
       vd_accessor := acc |} =>
      let accessorOk :=
        match k, acc with
        | KFunc, Some (_, storage) => isInferredDynamic storage
        | _, _ => true
        end in
      if negb accessorOk then false else
      match dyn with
      | Some true =>
          match ov with
          | None => true
          | Some o => isInferredDynamic o
          end
      | Some false => false
      | None => true
      end
  end.

Definition removeDynamicAttr (v : ValueDecl) : ValueDecl :=
  mkValueDecl (vd_id v) (vd_kind v) (vd_final v) (vd_invalid v) (vd_access v)
    None (vd_overriddenDecl v) (vd_accessor v) (vd_isOverridden v) (vd_inClass v).

(** [addFinal]: its body is commented out, so the declaration is returned
    unchanged; the walk still logs the call. *)
Definition addFinal (v : ValueDecl) : ValueDecl := v.

Definition isSetterWithUnsealedStorage (v : ValueDecl) : bool :=
  match vd_accessor v with
  | Some (IsSetter, storage) => negb (vd_final storage)
  | _ => false
  end.

(** [walkToDeclPre] on a [ValueDecl]: whether to visit the children, the
    declaration after the step, and the [addFinal] calls made (by id). *)
Definition walkToDeclPre (WholeModComp : bool) (ValD : ValueDecl)
  : bool * ValueDecl * list nat :=
  match vd_kind ValD with
  | KConstructor | KDestructor => (true, ValD, [])
  | _ =>
  if vd_final ValD || vd_invalid ValD || negb (hasAccessibility ValD)
  then (false, ValD, []) else
  let dyn :=
    match vd_dynamic ValD with
    | Some _ => if negb (isInferredDynamic ValD) then None else Some true
    | None => Some false
    end in
  match dyn with
  | None => (false, ValD, [])
  | Some removeDynamic =>
  let finish (v : ValueDecl) : ValueDecl * list nat :=
    let v1 := addFinal v in
    (if removeDynamic then removeDynamicAttr v1 else v1, [vd_id v]) in
  match vd_access ValD with
  | Some Public => (true, ValD, [])
  | Some Internal => if negb WholeModComp then (true, ValD, []) else
      match vd_kind ValD with
      | KStorage =>
          if negb (vd_isOverridden ValD) && vd_inClass ValD then
            let '(v, c) := finish ValD in (true, v, c)
          else (true, ValD, [])
      | KFunc =>
          if negb (vd_isOverridden ValD) && vd_inClass ValD then
            if isSetterWithUnsealedStorage ValD then (true, ValD, []) else
            let '(v, c) := finish ValD in (true, v, c)
          else (true, ValD, [])
      | _ => (true, ValD, [])
      end
  | _ =>
      match vd_kind ValD with
      | KStorage =>
          if negb (vd_isOverridden ValD) && vd_inClass ValD then
            let '(v, c) := finish ValD in (true, v, c)
          else (true, ValD, [])
      | KFunc =>
          if negb (vd_isOverridden ValD) && vd_inClass ValD then
            if isSetterWithUnsealedStorage ValD then (true, ValD, []) else
            let '(v, c) := finish ValD in (true, v, c)
          else (true, ValD, [])
      | _ => (true, ValD, [])
      end
  end
  end
  end.

(** Declarations with the children the walker visits (members, and the
    variables of pattern bindings; statements are not entered). *)
#[warnings="-register-all"]
Inductive Decl : Type :=
| DValue (v : ValueDecl) (children : list Decl)
| DNonValue (n : nat) (children : list Decl).

(** [D->walk(TryAddFinal)]: pre-order, children skipped when
    [walkToDeclPre] returns false; a non-value declaration continues. *)
Fixpoint walk (WholeModComp : bool) (d : Decl) : Decl * list nat :=
  match d with
  | DValue v cs =>
      let '(cont, v', calls) := walkToDeclPre WholeModComp v in
      if cont then
        let rs := map (walk WholeModComp) cs in
        (DValue v' (map fst rs), calls ++ concat (map snd rs))
      else (DValue v' cs, calls)
  | DNonValue n cs =>
      let rs := map (walk WholeModComp) cs in
      (DNonValue n (map fst rs), concat (map snd rs))
  end.

Record SourceFile : Type := mkSourceFile {
  sf_isPrimary : bool;
  sf_Decls : list Decl
}.

Definition performWholeModuleChecks (files : list SourceFile) (WholeModuleComp : bool)
  : list SourceFile * list nat :=
  let rs := map (fun SF =>
    if WholeModuleComp || sf_isPrimary SF then
      let ds := map (walk WholeModuleComp) (sf_Decls SF) in
      (mkSourceFile (sf_isPrimary SF) (map fst ds), concat (map snd ds))
    else (SF, [])) files in
  (map fst rs, concat (map snd rs)).

(** The sealed flags of a declaration tree, in pre-order. *)
Fixpoint finals (d : Decl) : list (nat * bool) :=
  match d with
  | DValue v cs => (vd_id v, vd_final v) :: flat_map finals cs
  | DNonValue _ cs => flat_map finals cs
  end.

Definition file_finals (files : list SourceFile) : list (nat * bool) :=
  flat_map (fun SF => flat_map finals (sf_Decls SF)) files.

(** A declaration tree with every [DynamicAttr] of its value declarations
    dropped. *)
Fixpoint strip_dynamic (d : Decl) : Decl :=
  match d with
  | DValue v cs => DValue (removeDynamicAttr v) (map strip_dynamic cs)
  | DNonValue n cs => DNonValue n (map strip_dynamic cs)
  end.

(** The value declarations of a tree, in pre-order. *)
Fixpoint values (d : Decl) : list ValueDecl :=
  match d with
  | DValue v cs => v :: flat_map values cs
  | DNonValue _ cs => flat_map values cs
  end.

(** The conditions under which [walkToDeclPre] reaches an [addFinal] call,
    collected in one predicate. *)
Definition addFinal_requested (WholeModComp : bool) (v : ValueDecl) : bool :=
  match vd_kind v with KStorage | KFunc => true | _ => false end
  && negb (vd_final v) && negb (vd_invalid v)
  && match vd_access v with
     | Some Private => true
     | Some Internal => WholeModComp
     | _ => false
     end
  && match vd_dynamic v with Some _ => isInferredDynamic v | None => true end
  && negb (vd_isOverridden v) && vd_inClass v
  && negb (match vd_kind v with KFunc => isSetterWithUnsealedStorage v | _ => false end).

(** An internal stored property of a class, valid, not sealed, not
    dynamic and never overridden. *)
Definition internal_property : ValueDecl :=
  mkValueDecl 1 KStorage false false (Some Internal) None None None false true.

Definition class_file : SourceFile :=
  mkSourceFile true [DValue (mkValueDecl 0 (KClass false) false false (Some Internal)
                               None None None false false)
                             [DValue internal_property []]].

(** Induction over declaration trees, with the hypothesis on every child. *)
Fixpoint Decl_ind' (P : Decl -> Prop)
  (HV : forall v cs, Forall P cs -> P (DValue v cs))
  (HN : forall n cs, Forall P cs -> P (DNonValue n cs)) (d : Decl) : P d :=
  match d with
  | DValue v cs =>
      HV v cs ((fix go (l : list Decl) : Forall P l :=
                  match l with
                  | [] => Forall_nil P
                  | x :: r => Forall_cons x (Decl_ind' P HV HN x) (go r)
                  end) cs)
  | DNonValue n cs =>
      HN n cs ((fix go (l : list Decl) : Forall P l :=
                  match l with
                  | [] => Forall_nil P
                  | x :: r => Forall_cons x (Decl_ind' P HV HN x) (go r)
                  end) cs)
  end.

End Sealing.

(** ** [getStdlibModule] and [lookupBoolType]

    Modules, declaration contexts and type declarations are identified by
    numbers; a null [Module *] or a null [Type] is [None].  The two caches
    of the type checker are [StdlibModule] (a [Module *]) and [boolType]
    (an [Optional<Type>], whose [cache(fn)] calls [fn] and stores its
    result, a null [Type] included, only when it holds no value). *)
Module StdlibCache.

Inductive Diag : Type :=
| bool_type_broken.

Record TCState : Type := mkTC {
  StdlibModule : option nat;
  boolType : option (option nat);
  recorded : list nat;   (* Context.recordKnownProtocols calls *)
  lookups : list nat;    (* modules the unqualified lookup of Bool ran in *)
  diags : list Diag
}.

(** Outcome of [UnqualifiedLookup] of [Bool]: [isSuccess()] false, or
    the result of [getSingleTypeResult()] (null: [None]). *)
Inductive LookupResult : Type :=
| LookupFailed
| LookupFound (singleTypeResult : option nat).

Section Cache.

(** [Context.getStdlibModule()], [dc->getParentModule()], the lookup of
    [Bool] in a module, and [TypeDecl::getDeclaredType]. *)
Variable ctxStdlibModule : option nat.
Variable getParentModule : nat -> nat.
Variable boolLookup : nat -> LookupResult.
Variable getDeclaredType : nat -> nat.

Definition getStdlibModule (dc : nat) (tc : TCState) : nat * TCState :=
  match StdlibModule tc with
  | Some m => (m, tc)
  | None =>
      let m := match ctxStdlibModule with
               | Some m => m
               | None => getParentModule dc
               end in
      (m, mkTC (Some m) (boolType tc) (recorded tc ++ [m]) (lookups tc) (diags tc))
  end.

Definition diagnose (d : Diag) (tc : TCState) : TCState :=
  mkTC (StdlibModule tc) (boolType tc) (recorded tc) (lookups tc) (diags tc ++ [d]).

(** The closure passed to [boolType.cache]. *)
Definition computeBoolType (dc : nat) (tc : TCState) : option nat * TCState :=
  let '(m, tc1) := getStdlibModule dc tc in
  let tc2 := mkTC (StdlibModule tc1) (boolType tc1) (recorded tc1)
                  (lookups tc1 ++ [m]) (diags tc1) in
  match boolLookup m with
  | LookupFailed => (None, diagnose bool_type_broken tc2)
  | LookupFound None => (None, diagnose bool_type_broken tc2)
  | LookupFound (Some tyDecl) => (Some (getDeclaredType tyDecl), tc2)
  end.

Definition lookupBoolType (dc : nat) (tc : TCState) : option nat * TCState :=
  match boolType tc with
  | Some t => (t, tc)
  | None =>
      let '(t, tc1) := computeBoolType dc tc in
      (t, mkTC (StdlibModule tc1) (Some t) (recorded tc1) (lookups tc1) (diags tc1))
  end.

(** A sequence of calls from the rest of the type checker. *)
Inductive Request : Type :=
| ReqStdlibModule (dc : nat)
| ReqBoolType (dc : nat).

Inductive Answer : Type :=
| AnsModule (m : nat)
| AnsBoolType (t : option nat).

Fixpoint run (rs : list Request) (tc : TCState) : list Answer * TCState :=
  match rs with
  | [] => ([], tc)
  | ReqStdlibModule dc :: rest =>
      let '(m, tc1) := getStdlibModule dc tc in
      let '(as_, tc2) := run rest tc1 in (AnsModule m :: as_, tc2)
  | ReqBoolType dc :: rest =>
      let '(t, tc1) := lookupBoolType dc tc in
      let '(as_, tc2) := run rest tc1 in (AnsBoolType t :: as_, tc2)
  end.

Definition req_dc (r : Request) : nat :=
  match r with ReqStdlibModule dc | ReqBoolType dc => dc end.

(** The type [computeBoolType] gives for a lookup outcome. *)
Definition bool_of (r : LookupResult) : option nat :=
  match r with
  | LookupFound (Some tyDecl) => Some (getDeclaredType tyDecl)
  | _ => None
  end.

(** What the two caches hold, relative to the state [tc0] of a checker
    whose caches were empty: an unset cache has had no effect; a set
    [StdlibModule] was recorded once, and is the context's standard
    library when there is one; a set [boolType] comes from one lookup in
    the cached module, with one diagnostic when the lookup failed. *)
Record consistent (tc0 tc : TCState) : Prop := {
  cons_nomod : StdlibModule tc = None -> recorded tc = recorded tc0 /\ boolType tc = None;
  cons_mod : forall m, StdlibModule tc = Some m ->
    recorded tc = recorded tc0 ++ [m] /\ (forall m0, ctxStdlibModule = Some m0 -> m = m0);
  cons_nobool : boolType tc = None -> lookups tc = lookups tc0 /\ diags tc = diags tc0;
  cons_bool : forall t, boolType tc = Some t ->
    exists m, StdlibModule tc = Some m /\ lookups tc = lookups tc0 ++ [m]
      /\ t = bool_of (boolLookup m)
      /\ diags tc = diags tc0 ++ match t with None => [bool_type_broken] | Some _ => [] end
}.

(** Caches set in [tc] are set to the same value in [tc']. *)
Definition extends (tc tc' : TCState) : Prop :=
  (forall m, StdlibModule tc = Some m -> StdlibModule tc' = Some m)
  /\ (forall t, boolType tc = Some t -> boolType tc' = Some t).

End Cache.

End StdlibCache.

(** ** The entry point [performTypeChecking]

    The work collections of the [TypeChecker] created by the call are a
    scheduler [State]: [ExternalDefinitions] and the cursor come from the
    [ASTContext], the other collections start empty.  Name binding, the
    standard-library lookup, extension binding, validation, the
    declaration checks and the REPL synthesis are collaborators; each of
    them may append to the work collections ([Growth]).  The build is
    one with assertions, with a Clang module loader. *)
Module Driver.
Import Scheduler.

(** Top-level declarations of a source file, identified by a number. *)
Inductive FileDecl : Type :=
| FExtension (n : nat)
| FNominal (n : nat)
| FTopLevelCode (n : nat)
| FOther (n : nat).

Definition isTopLevelCode (d : FileDecl) : bool :=
  match d with FTopLevelCode _ => true | _ => false end.

Definition fileDeclId (d : FileDecl) : nat :=
  match d with FExtension n | FNominal n | FTopLevelCode n | FOther n => n end.

Inductive ASTStage : Type := Parsing | NameBound | TypeChecked.

Definition stage_eqb (a b : ASTStage) : bool :=
  match a, b with
  | Parsing, Parsing | NameBound, NameBound | TypeChecked, TypeChecked => true
  | _, _ => false
  end.

Inductive SourceFileKind : Type := Library | Main | REPL | SIL.

Definition kind_eqb (a b : SourceFileKind) : bool :=
  match a, b with
  | Library, Library | Main, Main | REPL, REPL | SIL, SIL => true
  | _, _ => false
  end.

Record SourceFile : Type := mkSourceFile {
  Decls : list FileDecl;
  Stage : ASTStage;
  Kind : SourceFileKind;
  FirstObjCAttrLoc : option nat
}.

Definition setStage (s : ASTStage) (SF : SourceFile) : SourceFile :=
  mkSourceFile (Decls SF) s (Kind SF) (FirstObjCAttrLoc SF).

(** An imported module: its name and its files ([None]: a file that is
    not a [SourceFile]). *)
Record ImportedModule : Type := mkImported {
  im_name : string;
  im_files : list (option (list FileDecl))
}.

Record Context : Type := mkContext {
  ctx_ExternalDefinitions : list Scheduler.Decl;
  ctx_LastCheckedExternalDefinition : nat
}.

(** Calls made by [performTypeChecking]. *)
Inductive DEvent : Type :=
| EvNameBinding (StartElem : nat)
| EvGetStdlibModule
| EvBindExtension (n : nat)
| EvValidateDecl (n : nat)
| EvTypeCheckDecl (n : nat) (isFirstPass : bool)
| EvTopLevelCodeDecl (n : nat)
| EvContextualize (ds : list FileDecl)
| EvProcessREPL (StartElem : nat)
| EvFunctionsAndExternals (tr : list Scheduler.Event)
| EvObjCWithoutModule (loc : nat)
| EvVerify
| EvVerifyClangModules.

Section Perform.

Variable performNameBinding : nat -> SourceFile -> SourceFile.
Variable visibleModules : SourceFile -> list ImportedModule.
(** [mayConformToKnownProtocol] of a declaration, and the nominal type
    an extension extends once bound. *)
Variable mayConform : nat -> bool.
Variable extendedNominal : nat -> option nat.
Variable bindExtensionDecl : nat -> State -> Growth.
Variable validateDecl : nat -> State -> Growth.
Variable typeCheckDecl : nat -> bool -> State -> Growth.
Variable typeCheckTopLevelCodeDecl : nat -> State -> Growth.
Variable processREPLTopLevel : nat -> State -> Growth.
(** [Context.hadError()] after the calls made so far. *)
Variable hadError : list DEvent -> bool.
Variable EnableObjCAttrRequiresObjCModule : bool.
(** The collaborators of the scheduler loop. *)
Variables typeCheckAbstractFunctionBody handleExternalDecl computeCaptures
  typeCheckDeclFirstPass : nat -> State -> Growth.

Definition dcall (e : DEvent) (g : Growth) (st : State) (evs : list DEvent)
  : State * list DEvent :=
  (apply_growth g st, evs ++ [e]).

(** The body of the loop over the declarations of a visible source file. *)
Definition visible_decl (d : FileDecl) (st : State) (evs : list DEvent)
  : State * list DEvent :=
  match d with
  | FExtension n =>
      let '(st1, evs1) := dcall (EvBindExtension n) (bindExtensionDecl n st) st evs in
      if mayConform n then
        match extendedNominal n with
        | Some nom => dcall (EvValidateDecl nom) (validateDecl nom st1) st1 evs1
        | None => (st1, evs1)
        end
      else (st1, evs1)
  | FNominal n =>
      if mayConform n then dcall (EvValidateDecl n) (validateDecl n st) st evs
      else (st, evs)
  | _ => (st, evs)
  end.

Fixpoint visible_decls (ds : list FileDecl) (st : State) (evs : list DEvent)
  : State * list DEvent :=
  match ds with
  | [] => (st, evs)
  | d :: rest => let '(st1, evs1) := visible_decl d st evs in visible_decls rest st1 evs1
  end.

Fixpoint visible_files (fs : list (option (list FileDecl))) (st : State)
  (evs : list DEvent) : State * list DEvent :=
  match fs with
  | [] => (st, evs)
  | None :: rest => visible_files rest st evs
  | Some ds :: rest =>
      let '(st1, evs1) := visible_decls ds st evs in visible_files rest st1 evs1
  end.

(** [SF.forAllVisibleModules(...)], with [ImportsFoundationModule]. *)
Fixpoint visible_modules (ms : list ImportedModule) (found : bool) (st : State)
  (evs : list DEvent) : bool * State * list DEvent :=
  match ms with
  | [] => (found, st, evs)
  | m :: rest =>
      let found1 := if String.eqb (im_name m) "Foundation"%string then true else found in
      let '(st1, evs1) := visible_files (im_files m) st evs in
      visible_modules rest found1 st1 evs1
  end.

(** The first pass over [slice(StartElem)]. *)
Fixpoint first_pass (ds : list FileDecl) (st : State) (evs : list DEvent)
  : State * list DEvent :=
  match ds with
  | [] => (st, evs)
  | d :: rest =>
      if isTopLevelCode d then first_pass rest st evs
      else
        let '(st1, evs1) := dcall (EvTypeCheckDecl (fileDeclId d) true)
                              (typeCheckDecl (fileDeclId d) true st) st evs in
        first_pass rest st1 evs1
  end.

(** The second pass, with [hasTopLevelCode]. *)
Fixpoint second_pass (ds : list FileDecl) (hasTLC : bool) (st : State)
  (evs : list DEvent) : bool * State * list DEvent :=
  match ds with
  | [] => (hasTLC, st, evs)
  | FTopLevelCode n :: rest =>
      let '(st1, evs1) := dcall (EvTopLevelCodeDecl n)
                            (typeCheckTopLevelCodeDecl n st) st evs in
      second_pass rest true st1 evs1
  | d :: rest =>
      let '(st1, evs1) := dcall (EvTypeCheckDecl (fileDeclId d) false)
                            (typeCheckDecl (fileDeclId d) false st) st evs in
      second_pass rest hasTLC st1 evs1
  end.

Definition performTypeChecking (fuel StartElem : nat) (SF : SourceFile) (ctx : Context)
  : option (SourceFile * Context * list DEvent) :=
  if stage_eqb (Stage SF) TypeChecked then Some (SF, ctx, [])
  else
    let SF1 := performNameBinding StartElem SF in
    let evs0 := [EvNameBinding StartElem; EvGetStdlibModule] in
    let st0 := mkState (ctx_ExternalDefinitions ctx)
                 (ctx_LastCheckedExternalDefinition ctx) [] [] [] in
    let '(ImportsFoundationModule, st1, evs1) :=
      visible_modules (visibleModules SF1) false st0 evs0 in
    let ds := skipn StartElem (Decls SF1) in
    let '(st2, evs2) := first_pass ds st1 evs1 in
    let '(hasTopLevelCode, st3, evs3) := second_pass ds false st2 evs2 in
    let evs4 := if hasTopLevelCode then evs3 ++ [EvContextualize ds] else evs3 in
    let st4 := move_implicit st3 in
    let '(st5, evs5) :=
      if kind_eqb (Kind SF1) REPL && negb (hadError evs4)
      then dcall (EvProcessREPL StartElem) (processREPLTopLevel StartElem st4) st4 evs4
      else (st4, evs4) in
    match Scheduler.typeCheckFunctionsAndExternalDecls typeCheckAbstractFunctionBody
            handleExternalDecl computeCaptures typeCheckDeclFirstPass fuel st5 with
    | None => None
    | Some (st6, lg) =>
        let evs6 := evs5 ++ [EvFunctionsAndExternals (trace lg)] in
        let SF2 := setStage TypeChecked SF1 in
        let evs7 :=
          match FirstObjCAttrLoc SF1 with
          | Some L =>
              if EnableObjCAttrRequiresObjCModule && kind_eqb (Kind SF1) Main
                 && (StartElem =? 0) && negb ImportsFoundationModule
              then evs6 ++ [EvObjCWithoutModule L] else evs6
          | None => evs6
          end in
        let evs8 := evs7 ++ [EvVerify] in
        let evs9 := if kind_eqb (Kind SF1) REPL then evs8
                    else evs8 ++ [EvVerifyClangModules] in
        Some (SF2, mkContext (ExternalDefinitions st6) (LastCheckedExternalDefinition st6),
              evs9)
    end.

(** [typeCheckExternalDefinitions]: a fresh [TypeChecker] runs the loop
    on the file's context; the file must be type-checked already (the
    [assert] failing is a crash, [None]). *)
Definition typeCheckExternalDefinitions (fuel : nat) (SF : SourceFile) (ctx : Context)
  : option (Context * Log) :=
  if stage_eqb (Stage SF) TypeChecked then
    match Scheduler.typeCheckFunctionsAndExternalDecls typeCheckAbstractFunctionBody
            handleExternalDecl computeCaptures typeCheckDeclFirstPass fuel
            (mkState (ctx_ExternalDefinitions ctx) (ctx_LastCheckedExternalDefinition ctx)
                     [] [] []) with
    | None => None
    | Some (st, lg) =>
        Some (mkContext (ExternalDefinitions st) (LastCheckedExternalDefinition st), lg)
    end
  else None.

End Perform.

(** The declaration checks of a trace, in order. *)
Definition ev_check (e : DEvent) : list DEvent :=
  match e with
  | EvTypeCheckDecl _ _ | EvTopLevelCodeDecl _ => [e]
  | _ => []
  end.

Definition checks (evs : list DEvent) : list DEvent := flat_map ev_check evs.

(** The checks the two passes make on [ds]: the first pass on every
    declaration that is not top-level code, then the second pass on all. *)
Definition two_passes (ds : list FileDecl) : list DEvent :=
  map (fun d => EvTypeCheckDecl (fileDeclId d) true)
      (filter (fun d => negb (isTopLevelCode d)) ds)
  ++ map (fun d => match d with
                   | FTopLevelCode n => EvTopLevelCodeDecl n
                   | _ => EvTypeCheckDecl (fileDeclId d) false
                   end) ds.

Definition is_objc_diag (e : DEvent) : bool :=
  match e with EvObjCWithoutModule _ => true | _ => false end.

(** [ImportsFoundationModule] as the walk of the visible modules sets it. *)
Definition importsFoundation (ms : list ImportedModule) : bool :=
  existsb (fun m => String.eqb (im_name m) "Foundation"%string) ms.

(** The slices passed to [contextualizeTopLevelCode]. *)
Definition ev_contextualized (e : DEvent) : list (list FileDecl) :=
  match e with EvContextualize ds => [ds] | _ => [] end.

Definition contextualized (evs : list DEvent) : list (list FileDecl) :=
  flat_map ev_contextualized evs.

(** Calls made while walking the visible modules. *)
Definition visible_event (e : DEvent) : Prop :=
  match e with EvBindExtension _ | EvValidateDecl _ => True | _ => False end.

End Driver.

(** Concrete collaborators used to exercise [performTypeChecking]:
    name binding only advances the stage; the visible modules are the
    standard library, which declares the nominal type 20 that may conform
    to a known protocol, and, in [dx_visible_foundation], Foundation, with
    an extension of 20; the second pass over the nominal type 2 defines
    the function 5. *)
Module DriverExamples.
Import Scheduler Driver.

Definition dx_nameBinding (_ : nat) (SF : SourceFile) : SourceFile := setStage NameBound SF.
Definition dx_visible (_ : SourceFile) : list ImportedModule :=
  [mkImported "Swift"%string [Some [FNominal 20]; None]].
Definition dx_mayConform (n : nat) : bool := n =? 20.
Definition dx_extendedNominal (_ : nat) : option nat := Some 20.
Definition dx_none (_ : nat) (_ : State) : Growth := no_growth.
Definition dx_typeCheckDecl (n : nat) (isFirstPass : bool) (_ : State) : Growth :=
  if isFirstPass then no_growth
  else if n =? 2 then mkGrowth [] [5] [] [] else no_growth.
Definition dx_hadError (_ : list DEvent) : bool := false.
Definition dx_file : SourceFile :=
  mkSourceFile [FOther 1; FNominal 2; FTopLevelCode 3] Parsing Main (Some 42).
Definition dx_context : Context := mkContext [] 0.

End DriverExamples.

(** Concrete collaborators used to exercise the scheduler.
    [fx_*]: checking the body of function 1 appends the nested function 2,
    the external nominal type 5, and pushes the nominal type 7 for
    validation; handling 5 stages the implicit function 3; validating 7
    pushes 8.
    [nest_*]: function 1 contains function 2, which contains function 3;
    checking a body appends the function nested in it. *)
Module SchedulerExamples.
Import Scheduler.

Definition fx_body (f : nat) (_ : State) : Growth :=
  if f =? 1 then mkGrowth [DNominal 5] [2] [] [7] else no_growth.
Definition fx_ext (n : nat) (_ : State) : Growth :=
  if n =? 5 then mkGrowth [] [] [3] [] else no_growth.
Definition fx_captures (_ : nat) (_ : State) : Growth := no_growth.
Definition fx_decl (n : nat) (_ : State) : Growth :=
  if n =? 7 then mkGrowth [] [] [] [8] else no_growth.
Definition fx_state : State := mkState [] 0 [1] [] [].

Definition nest_body (f : nat) (_ : State) : Growth :=
  if f =? 1 then mkGrowth [] [2] [] []
  else if f =? 2 then mkGrowth [] [3] [] []
  else no_growth.
Definition nest_other (_ : nat) (_ : State) : Growth := no_growth.
Definition nest_state : State := mkState [] 0 [1] [] [].

End SchedulerExamples.

(** ** Extension binding: proofs *)
Module ExtensionFacts.
Import Extension.

Lemma synthesize_ok refs : forall comps,
  (forall k r, nth_error refs k = Some r -> (0 < k \/ comps <> []) -> ref_Name r <> Id_Type) ->
  synthesize_components refs comps = inr (comps ++ map ref_Name refs).
Proof.
  induction refs as [|r refs IH]; intros comps H; simpl.
  - now rewrite app_nil_r.
  - destruct (String.eqb (ref_Name r) Id_Type) eqn:Hn; simpl.
    + apply String.eqb_eq in Hn.
      destruct comps as [|c cs]; simpl.
      * rewrite IH.
        -- reflexivity.
        -- intros k r' Hk _. apply (H (S k)); [exact Hk|left; lia].
      * exfalso. apply (H 0 r); [reflexivity|right; discriminate|exact Hn].
    + rewrite IH.
      * now rewrite <- app_assoc.
      * intros k r' Hk _. apply (H (S k)); [exact Hk|left; lia].
Qed.

Lemma synthesize_metatype refs : forall comps k r,
  nth_error refs k = Some r -> ref_Name r = Id_Type -> (0 < k \/ comps <> []) ->
  exists ref, synthesize_components refs comps = inl ref.
Proof.
  induction refs as [|r0 refs IH]; intros comps k r Hk Hn Hc; [destruct k; discriminate|].
  simpl. destruct (String.eqb (ref_Name r0) Id_Type
                   && negb (match comps with [] => true | _ => false end)) eqn:Hb;
    [eauto|].
  destruct k as [|k].
  - simpl in Hk. inversion Hk; subst. destruct Hc as [Hc|Hc]; [lia|].
    rewrite Hn, String.eqb_refl in Hb. destruct comps; [congruence|discriminate].
  - apply (IH _ k r Hk Hn). right. destruct comps; discriminate.
Qed.

Ltac split_rec :=
  match goal with
  | H : context [check_components ?b ?i ?o ?r] |- _ =>
      let ds := fresh "ds" in let rs := fresh "rs" in let ab := fresh "ab" in
      let Hr := fresh "Hrec" in
      destruct (check_components b i o r) as [[ds rs] ab] eqn:Hr
  end.

Lemma check_no_mismatch refs : forall bound i outer ds rs ab,
  (forall j ref, nth_error refs j = Some ref -> arity_mismatch bound (i + j) ref = false) ->
  check_components bound i outer refs = (ds, rs, ab) -> ab = false.
Proof.
  induction refs as [|r refs IH]; intros bound i outer ds rs ab Hm Hc;
    simpl in Hc; [now inversion Hc|].
  assert (Hrest : forall j ref, nth_error refs j = Some ref ->
                  arity_mismatch bound (S i + j) ref = false).
  { intros j ref Hj. replace (S i + j) with (i + S j) by lia. now apply Hm. }
  pose proof (Hm 0 r eq_refl) as H0. rewrite Nat.add_0_r in H0.
  unfold arity_mismatch in H0.
  destruct (typeDecl_of (bound i)) as [td|];
    [destruct (nominal_GenericParams td) as [tgp|], (ref_GenericParams r) as [gp|]|
     destruct (ref_GenericParams r)];
    try (rewrite H0 in Hc; simpl in Hc);
    split_rec; inversion Hc; subst; eapply IH; eauto.
Qed.

Lemma check_first_mismatch j : forall refs bound i outer ds rs ab ref td tgp gp,
  nth_error refs j = Some ref ->
  typeDecl_of (bound (i + j)) = Some td ->
  nominal_GenericParams td = Some tgp -> ref_GenericParams ref = Some gp ->
  gpl_size gp <> gpl_size tgp ->
  (forall j' ref', j' < j -> nth_error refs j' = Some ref' ->
                   arity_mismatch bound (i + j') ref' = false) ->
  check_components bound i outer refs = (ds, rs, ab) ->
  ab = true
  /\ exists pre, ds = pre ++ [extension_generic_wrong_number_of_parameters
                               (ref_NameLoc ref) td (gpl_size tgp <? gpl_size gp)
                               (gpl_size gp) (gpl_size tgp)].
Proof.
  induction j as [|j IH]; intros refs bound i outer ds rs ab ref td tgp gp
    Hj Htd Htg Hgp Hne Hprev Hc; destruct refs as [|r refs]; try discriminate.
  - simpl in Hj. inversion Hj; subst. rewrite Nat.add_0_r in Htd.
    simpl in Hc. rewrite Htd, Htg, Hgp in Hc.
    apply Nat.eqb_neq in Hne. rewrite Hne in Hc. simpl in Hc.
    inversion Hc; subst. split; [reflexivity|]. exists []. reflexivity.
  - simpl in Hj.
    assert (Hrest : forall j' ref', j' < j -> nth_error refs j' = Some ref' ->
                    arity_mismatch bound (S i + j') ref' = false).
    { intros j' ref' Hlt Hj'. replace (S i + j') with (i + S j') by lia.
      apply Hprev; [lia|exact Hj']. }
    replace (i + S j) with (S i + j) in Htd by lia.
    pose proof (Hprev 0 r ltac:(lia) eq_refl) as H0. rewrite Nat.add_0_r in H0.
    unfold arity_mismatch in H0. simpl in Hc.
    destruct (typeDecl_of (bound i)) as [td0|];
      [destruct (nominal_GenericParams td0) as [tgp0|], (ref_GenericParams r) as [gp0|]|
       destruct (ref_GenericParams r)];
      try (rewrite H0 in Hc; simpl in Hc);
      split_rec; inversion Hc; subst;
      (edestruct IH as [Hab [pre Hpre]];
       [exact Hj|exact Htd|exact Htg|exact Hgp|exact Hne|exact Hrest|exact Hrec|]);
      (split; [exact Hab|]); rewrite Hpre;
      match goal with
      | |- exists p, ?a :: ?b :: _ = _ => exists (a :: b :: pre); reflexivity
      | |- exists p, ?a :: _ = _ => exists (a :: pre); reflexivity
      | |- _ => exists pre; reflexivity
      end.
Qed.

Lemma synthesize_inr refs : forall comps l,
  synthesize_components refs comps = inr l -> l = comps ++ map ref_Name refs.
Proof.
  induction refs as [|r refs IH]; intros comps l H; simpl in H.
  - inversion H. now rewrite app_nil_r.
  - destruct (_ && _); [discriminate|]. apply IH in H. now rewrite H, <- app_assoc.
Qed.

(** Claim C3.  For an unbound extension whose path names no metatype and
    which [validateType] resolves: (1) at the first component where the
    component and the nominal type it denotes both carry generic parameter
    lists of different sizes, the binder emits, as its last diagnostic, the
    wrong-number-of-parameters diagnostic with the direction ([excess] is
    [numHave > numExpected]), sets the extended type to the error type,
    marks the extension invalid and registers it nowhere; (2) when no
    component has such a mismatch, none of the other per-component checks
    invalidates the extension: a nominal or unbound generic resolved type
    is bound, the invalid flag is left as it was, and the extension is
    registered on the type. *)
Theorem bindExtensionDecl_arity_mismatch_aborts
  (validateType : list Identifier -> nat -> ValidateResult)
  (ED : ExtensionDecl) (st : TCState) (bound : nat -> Binding) (t : Ty) :
  ext_ExtendedType ED = None ->
  (forall k r, nth_error (ext_RefComponents ED) (S k) = Some r -> ref_Name r <> Id_Type) ->
  validateType (map ref_Name (ext_RefComponents ED)) (ext_DeclContext ED) = Validated bound t ->
  (forall j ref td tgp gp,
     nth_error (ext_RefComponents ED) j = Some ref ->
     typeDecl_of (bound j) = Some td ->
     nominal_GenericParams td = Some tgp -> ref_GenericParams ref = Some gp ->
     gpl_size gp <> gpl_size tgp ->
     (forall j' ref', j' < j -> nth_error (ext_RefComponents ED) j' = Some ref' ->
                      arity_mismatch bound j' ref' = false) ->
     let '(ED', st') := bindExtensionDecl validateType ED st in
     ext_ExtendedType ED' = Some TyError /\ ext_Invalid ED' = true
     /\ tc_extensions st' = tc_extensions st
     /\ exists pre, tc_diags st' = tc_diags st ++ pre
          ++ [extension_generic_wrong_number_of_parameters (ref_NameLoc ref) td
                (gpl_size tgp <? gpl_size gp) (gpl_size gp) (gpl_size tgp)])
  /\ ((forall j ref, nth_error (ext_RefComponents ED) j = Some ref ->
                     arity_mismatch bound j ref = false) ->
      forall d, (t = TyNominal d \/ t = TyUnboundGeneric d) ->
      let '(ED', st') := bindExtensionDecl validateType ED st in
      ext_ExtendedType ED' = Some t /\ ext_Invalid ED' = ext_Invalid ED
      /\ tc_extensions st' = tc_extensions st ++ [(nominal_id d, ext_id ED)]).
Proof.
  intros Hnone Hnames Hval.
  assert (Hsyn : synthesize_components (ext_RefComponents ED) []
                 = inr (map ref_Name (ext_RefComponents ED))).
  { rewrite synthesize_ok; [reflexivity|].
    intros [|k] r Hk [Hlt|Hc]; [lia|congruence|now apply (Hnames k)|congruence]. }
  unfold bindExtensionDecl. rewrite Hnone, Hsyn, Hval.
  destruct (check_components bound 0 None (ext_RefComponents ED)) as [[ds rs] ab] eqn:Hc.
  split.
  - intros j ref td tgp gp Hj Htd Htg Hgp Hne Hprev.
    destruct (check_first_mismatch j _ _ 0 _ _ _ _ _ _ _ _ Hj Htd Htg Hgp Hne Hprev Hc)
      as [-> [pre Hpre]].
    simpl. split; [reflexivity|]. split; [reflexivity|]. split; [reflexivity|].
    exists pre. now rewrite Hpre, app_assoc.
  - intros Hall d Ht.
    rewrite (check_no_mismatch _ _ 0 _ _ _ _ Hall Hc).
    destruct Ht as [-> | ->]; simpl; auto.
Qed.

(** The wrong arity [extension G2<T>] is rejected with the direction
    [deficit]; the right arity [extension G2<A, B>] is bound. *)
Lemma bindExtensionDecl_arity_mismatch_aborts_witness :
  (let '(ED', st') := bindExtensionDecl ExtensionExamples.validate_G2
                        ExtensionExamples.ext_G2_1 (mkTC [] [] []) in
   ext_ExtendedType ED' = Some TyError /\ ext_Invalid ED' = true
   /\ tc_extensions st' = []
   /\ exists pre, tc_diags st' = [] ++ pre
        ++ [extension_generic_wrong_number_of_parameters 2 ExtensionExamples.G2
              false 1 2])
  /\ (let '(ED', st') := bindExtensionDecl ExtensionExamples.validate_G2
                          ExtensionExamples.ext_G2_2 (mkTC [] [] []) in
      ext_ExtendedType ED' = Some (TyUnboundGeneric ExtensionExamples.G2)
      /\ ext_Invalid ED' = false
      /\ tc_extensions st' = [] ++ [(8, 2)]).
Proof.
  split.
  - refine (proj1 (bindExtensionDecl_arity_mismatch_aborts
                     ExtensionExamples.validate_G2 ExtensionExamples.ext_G2_1
                     (mkTC [] [] [])
                     (fun _ => BoundType (TyUnboundGeneric ExtensionExamples.G2))
                     (TyUnboundGeneric ExtensionExamples.G2)
                     eq_refl _ eq_refl)
                  0 (mkRef "G2"%string 2 (Some (mkGPL ["T"]%string None)))
                  ExtensionExamples.G2 (mkGPL ["T"; "U"]%string None)
                  (mkGPL ["T"]%string None)
                  eq_refl eq_refl eq_refl eq_refl _ _).
    all: first [ (intros k r Hk; destruct k; simpl in Hk; discriminate)
               | (cbn; intros Heq; discriminate)
               | (intros j' ref' Hlt; exfalso; lia) ].
  - refine (proj2 (bindExtensionDecl_arity_mismatch_aborts
                     ExtensionExamples.validate_G2 ExtensionExamples.ext_G2_2
                     (mkTC [] [] [])
                     (fun _ => BoundType (TyUnboundGeneric ExtensionExamples.G2))
                     (TyUnboundGeneric ExtensionExamples.G2)
                     eq_refl _ eq_refl)
                  _ ExtensionExamples.G2 (or_intror eq_refl)).
    + intros k r Hk. destruct k; simpl in Hk; discriminate.
    + intros [|[|j]] ref Hj; simpl in Hj; inversion Hj; reflexivity.
Defined.

(** Claim C4.  [bindExtensionDecl] on an extension already bound changes
    nothing.  On an unbound extension it always sets the extended type:
    either to the error type together with the invalid mark (and no
    registration), or to the nominal or unbound generic type that
    [validateType] resolved, with the extension appended to that type's
    extension list; a second call is then a no-op. *)
Theorem bindExtensionDecl_resolves_once
  (validateType : list Identifier -> nat -> ValidateResult)
  (ED : ExtensionDecl) (st : TCState) :
  let '(ED', st') := bindExtensionDecl validateType ED st in
  match ext_ExtendedType ED with
  | Some _ => ED' = ED /\ st' = st
  | None =>
      ((ext_ExtendedType ED' = Some TyError /\ ext_Invalid ED' = true
        /\ tc_extensions st' = tc_extensions st)
       \/ (exists bound d t,
              validateType (map ref_Name (ext_RefComponents ED)) (ext_DeclContext ED)
                = Validated bound t
              /\ (t = TyNominal d \/ t = TyUnboundGeneric d)
              /\ ext_ExtendedType ED' = Some t
              /\ tc_extensions st' = tc_extensions st ++ [(nominal_id d, ext_id ED)]))
      /\ bindExtensionDecl validateType ED' st' = (ED', st')
  end.
Proof.
  destruct (bindExtensionDecl validateType ED st) as [ED' st'] eqn:Hb.
  unfold bindExtensionDecl in Hb.
  destruct (ext_ExtendedType ED) as [t0|] eqn:He.
  - inversion Hb; auto.
  - destruct (synthesize_components (ext_RefComponents ED) []) as [ref|comps] eqn:Hs.
    + inversion Hb; subst. split; [left; auto|reflexivity].
    + apply synthesize_inr in Hs. simpl in Hs. subst comps.
      destruct (validateType (map ref_Name (ext_RefComponents ED)) (ext_DeclContext ED))
        as [|bound t] eqn:Hv.
      * inversion Hb; subst. split; [left; auto|reflexivity].
      * destruct (check_components bound 0 None (ext_RefComponents ED))
          as [[ds rs] ab] eqn:Hc.
        destruct ab.
        -- inversion Hb; subst. split; [left; auto|reflexivity].
        -- destruct t as [d|d| |n]; inversion Hb; subst.
           ++ split; [right; exists bound, d, (TyNominal d); auto|reflexivity].
           ++ split; [right; exists bound, d, (TyUnboundGeneric d); auto|reflexivity].
           ++ split; [left; auto|reflexivity].
           ++ split; [left; auto|reflexivity].
Qed.

(** Amended claim C6.  An unbound extension with a single component that
    carries a generic parameter list, resolved to a non-generic nominal
    type, gets one diagnostic for the generic parameters (followed by a
    note at the type); the parameters are dropped, the extension is bound
    to the type and registered on it, and its invalid flag is left as it
    was. *)
Theorem bindExtensionDecl_generic_args_on_nongeneric
  (validateType : list Identifier -> nat -> ValidateResult)
  (ED : ExtensionDecl) (st : TCState) (ref : RefComponent) (g : GenericParamList)
  (bound : nat -> Binding) (td : NominalTypeDecl) :
  ext_ExtendedType ED = None -> ext_RefComponents ED = [ref] ->
  ref_GenericParams ref = Some g ->
  validateType [ref_Name ref] (ext_DeclContext ED) = Validated bound (TyNominal td) ->
  typeDecl_of (bound 0) = Some td -> nominal_GenericParams td = None ->
  bindExtensionDecl validateType ED st =
  (mkExtension (ext_id ED) (ext_DeclContext ED) [set_params None ref]
     (Some (TyNominal td)) (ext_Invalid ED),
   mkTC (tc_diags st ++ [extension_generic_params_for_non_generic_type (ref_NameLoc ref) td;
                         extended_type_here td])
        (tc_calls st ++ [CallValidateType [ref_Name ref] (ext_DeclContext ED)])
        (tc_extensions st ++ [(nominal_id td, ext_id ED)])).
Proof.
  intros He Hr Hg Hv Htd Hng.
  unfold bindExtensionDecl. rewrite He, Hr. simpl. rewrite andb_false_r. simpl.
  rewrite Hv. simpl. rewrite Htd, Hng, Hg. reflexivity.
Qed.

Lemma bindExtensionDecl_generic_args_on_nongeneric_witness :
  bindExtensionDecl ExtensionExamples.validate_S ExtensionExamples.ext_S1 (mkTC [] [] [])
  = (mkExtension 0 0 [mkRef "S"%string 1 None] (Some (TyNominal ExtensionExamples.S)) false,
     mkTC ([] ++ [extension_generic_params_for_non_generic_type 1 ExtensionExamples.S;
                  extended_type_here ExtensionExamples.S])
          ([] ++ [CallValidateType ["S"%string] 0])
          ([] ++ [(7, 0)])).
Proof.
  exact (bindExtensionDecl_generic_args_on_nongeneric ExtensionExamples.validate_S
           ExtensionExamples.ext_S1 (mkTC [] [] [])
           (mkRef "S"%string 1 (Some (mkGPL ["T"]%string None)))
           (mkGPL ["T"]%string None)
           (fun _ => BoundType (TyNominal ExtensionExamples.S)) ExtensionExamples.S
           eq_refl eq_refl eq_refl eq_refl eq_refl eq_refl).
Defined.

(** Claim C6 as stated fails: [extension S<T>] on the non-generic struct
    [S] is not marked invalid and its extended type is [S], not the error
    type. *)
Lemma bindExtensionDecl_generic_args_on_nongeneric_counterexample :
  let '(ED', st') := bindExtensionDecl ExtensionExamples.validate_S
                       ExtensionExamples.ext_S1 (mkTC [] [] []) in
  ~ (ext_Invalid ED' = true /\ ext_ExtendedType ED' = Some TyError).
Proof. simpl. intros [H _]. discriminate. Qed.

(** Claim C10.  If a component other than the first is named [Type], the
    binder emits one metatype diagnostic, marks the extension invalid, sets
    the error type, registers nothing and never calls [validateType]. *)
Theorem bindExtensionDecl_metatype
  (validateType : list Identifier -> nat -> ValidateResult)
  (ED : ExtensionDecl) (st : TCState) (k : nat) (r : RefComponent) :
  ext_ExtendedType ED = None ->
  nth_error (ext_RefComponents ED) (S k) = Some r -> ref_Name r = Id_Type ->
  let '(ED', st') := bindExtensionDecl validateType ED st in
  ext_Invalid ED' = true /\ ext_ExtendedType ED' = Some TyError
  /\ tc_calls st' = tc_calls st /\ tc_extensions st' = tc_extensions st
  /\ exists loc, tc_diags st' = tc_diags st ++ [extension_metatype loc].
Proof.
  intros He Hk Hn.
  destruct (synthesize_metatype _ [] (S k) r Hk Hn (or_introl (Nat.lt_0_succ k)))
    as [ref Hs].
  unfold bindExtensionDecl. rewrite He, Hs. simpl.
  repeat split; auto. eexists; reflexivity.
Qed.

Lemma bindExtensionDecl_metatype_witness :
  let '(ED', st') := bindExtensionDecl ExtensionExamples.validate_S
                       ExtensionExamples.ext_S_Type (mkTC [] [] []) in
  ext_Invalid ED' = true /\ ext_ExtendedType ED' = Some TyError
  /\ tc_calls st' = [] /\ tc_extensions st' = []
  /\ exists loc, tc_diags st' = [] ++ [extension_metatype loc].
Proof.
  exact (bindExtensionDecl_metatype ExtensionExamples.validate_S
           ExtensionExamples.ext_S_Type (mkTC [] [] []) 0
           (mkRef "Type"%string 3 None) eq_refl eq_refl eq_refl).
Defined.

Lemma check_components_ok refs : forall bound i outer ds rs,
  check_components bound i outer refs = (ds, rs, false) ->
  chained outer rs
  /\ map ref_Name rs = map ref_Name refs
  /\ map ref_NameLoc rs = map ref_NameLoc refs
  /\ forall j r gp, nth_error rs j = Some r -> ref_GenericParams r = Some gp ->
     exists td tgp r0 gp0,
       typeDecl_of (bound (i + j)) = Some td /\ nominal_GenericParams td = Some tgp
       /\ gpl_size gp = gpl_size tgp
       /\ nth_error refs j = Some r0 /\ ref_GenericParams r0 = Some gp0
       /\ gpl_params gp = gpl_params gp0.
Proof.
  induction refs as [|r refs IH]; intros bound i outer ds rs Hc; simpl in Hc.
  - inversion Hc; subst. repeat split; auto. intros [|j] r gp Hj; discriminate.
  - destruct (typeDecl_of (bound i)) as [td|] eqn:Htd.
    + destruct (nominal_GenericParams td) as [tgp|] eqn:Htg;
        destruct (ref_GenericParams r) as [gp|] eqn:Hg.
      * destruct (negb (gpl_size gp =? gpl_size tgp)) eqn:Hs; [inversion Hc|].
        destruct (check_components bound (S i) (Some (mkGPL (gpl_params gp) outer)) refs)
          as [[ds' rs'] ab] eqn:Hr.
        inversion Hc; subst.
        destruct (IH _ _ _ _ _ Hr) as (H1 & H2 & H3 & H4).
        split; [simpl; auto|]. split; [simpl; now rewrite H2|].
        split; [simpl; now rewrite H3|].
        intros [|j] r' gp' Hj Hg'.
        -- simpl in Hj. inversion Hj; subst. simpl in Hg'. inversion Hg'; subst.
           apply negb_false_iff, Nat.eqb_eq in Hs.
           exists td, tgp, r, gp. rewrite Nat.add_0_r.
           unfold gpl_size in *. simpl. repeat split; auto.
        -- simpl in Hj. destruct (H4 j r' gp' Hj Hg') as (td' & tgp' & r0 & gp0 & HH).
           exists td', tgp', r0, gp0. now replace (i + S j) with (S i + j) by lia.
      * destruct (check_components bound (S i) outer refs) as [[ds' rs'] ab] eqn:Hr.
        inversion Hc; subst.
        destruct (IH _ _ _ _ _ Hr) as (H1 & H2 & H3 & H4).
        split; [simpl; now rewrite Hg|]. split; [simpl; now rewrite H2|].
        split; [simpl; now rewrite H3|].
        intros [|j] r' gp' Hj Hg'.
        -- simpl in Hj. inversion Hj; subst. congruence.
        -- simpl in Hj. destruct (H4 j r' gp' Hj Hg') as (td' & tgp' & r0 & gp0 & HH).
           exists td', tgp', r0, gp0. now replace (i + S j) with (S i + j) by lia.
      * destruct (check_components bound (S i) outer refs) as [[ds' rs'] ab] eqn:Hr.
        inversion Hc; subst.
        destruct (IH _ _ _ _ _ Hr) as (H1 & H2 & H3 & H4).
        split; [simpl; auto|]. split; [simpl; now rewrite H2|].
        split; [simpl; now rewrite H3|].
        intros [|j] r' gp' Hj Hg'.
        -- simpl in Hj. inversion Hj; subst. discriminate.
        -- simpl in Hj. destruct (H4 j r' gp' Hj Hg') as (td' & tgp' & r0 & gp0 & HH).
           exists td', tgp', r0, gp0. now replace (i + S j) with (S i + j) by lia.
      * destruct (check_components bound (S i) outer refs) as [[ds' rs'] ab] eqn:Hr.
        inversion Hc; subst.
        destruct (IH _ _ _ _ _ Hr) as (H1 & H2 & H3 & H4).
        split; [simpl; now rewrite Hg|]. split; [simpl; now rewrite H2|].
        split; [simpl; now rewrite H3|].
        intros [|j] r' gp' Hj Hg'.
        -- simpl in Hj. inversion Hj; subst. congruence.
        -- simpl in Hj. destruct (H4 j r' gp' Hj Hg') as (td' & tgp' & r0 & gp0 & HH).
           exists td', tgp', r0, gp0. now replace (i + S j) with (S i + j) by lia.
    + destruct (check_components bound (S i) outer refs) as [[ds' rs'] ab] eqn:Hr.
      destruct (ref_GenericParams r) as [gp|] eqn:Hg; inversion Hc; subst;
        destruct (IH _ _ _ _ _ Hr) as (H1 & H2 & H3 & H4).
      * split; [simpl; auto|]. split; [simpl; now rewrite H2|].
        split; [simpl; now rewrite H3|].
        intros [|j] r' gp' Hj Hg'.
        -- simpl in Hj. inversion Hj; subst. discriminate.
        -- simpl in Hj. destruct (H4 j r' gp' Hj Hg') as (td' & tgp' & r0 & gp0 & HH).
           exists td', tgp', r0, gp0. now replace (i + S j) with (S i + j) by lia.
      * split; [simpl; now rewrite Hg|]. split; [simpl; now rewrite H2|].
        split; [simpl; now rewrite H3|].
        intros [|j] r' gp' Hj Hg'.
        -- simpl in Hj. inversion Hj; subst. congruence.
        -- simpl in Hj. destruct (H4 j r' gp' Hj Hg') as (td' & tgp' & r0 & gp0 & HH).
           exists td', tgp', r0, gp0. now replace (i + S j) with (S i + j) by lia.
Qed.

(** When binding succeeds (the extended type set is not the error type),
    the components keep their names and locations; a component keeps a
    generic parameter list only if it names a generic type with the same
    number of parameters (and the list keeps its parameters); and the kept
    lists are chained, each to the nearest kept list before it. *)
Theorem bindExtensionDecl_chains_generic_params
  (validateType : list Identifier -> nat -> ValidateResult)
  (ED : ExtensionDecl) (st : TCState) (ED' : ExtensionDecl) (st' : TCState)
  (bound : nat -> Binding) (t : Ty) :
  ext_ExtendedType ED = None ->
  validateType (map ref_Name (ext_RefComponents ED)) (ext_DeclContext ED) = Validated bound t ->
  bindExtensionDecl validateType ED st = (ED', st') ->
  ext_ExtendedType ED' <> Some TyError ->
  chained None (ext_RefComponents ED')
  /\ map ref_Name (ext_RefComponents ED') = map ref_Name (ext_RefComponents ED)
  /\ map ref_NameLoc (ext_RefComponents ED') = map ref_NameLoc (ext_RefComponents ED)
  /\ forall j r gp, nth_error (ext_RefComponents ED') j = Some r ->
     ref_GenericParams r = Some gp ->
     exists td tgp r0 gp0,
       typeDecl_of (bound j) = Some td /\ nominal_GenericParams td = Some tgp
       /\ gpl_size gp = gpl_size tgp
       /\ nth_error (ext_RefComponents ED) j = Some r0 /\ ref_GenericParams r0 = Some gp0
       /\ gpl_params gp = gpl_params gp0.
Proof.
  intros He Hv Hb Hne. unfold bindExtensionDecl in Hb. rewrite He in Hb.
  destruct (synthesize_components (ext_RefComponents ED) []) as [ref|comps] eqn:Hs.
  - inversion Hb; subst. now destruct Hne.
  - apply synthesize_inr in Hs. simpl in Hs. subst comps. rewrite Hv in Hb.
    destruct (check_components bound 0 None (ext_RefComponents ED)) as [[ds rs] ab] eqn:Hc.
    destruct ab; [inversion Hb; subst; now destruct Hne|].
    destruct t as [d|d| |n]; inversion Hb; subst; try (now destruct Hne);
      simpl; apply (check_components_ok _ _ _ _ _ _ Hc).
Qed.

Lemma bindExtensionDecl_chains_generic_params_witness :
  let '(ED', st') := bindExtensionDecl ExtensionExamples.validate_nested
                       ExtensionExamples.ext_nested (mkTC [] [] []) in
  chained None (ext_RefComponents ED')
  /\ map ref_Name (ext_RefComponents ED')
     = map ref_Name (ext_RefComponents ExtensionExamples.ext_nested).
Proof.
  destruct (bindExtensionDecl ExtensionExamples.validate_nested
              ExtensionExamples.ext_nested (mkTC [] [] [])) as [ED' st'] eqn:Hb.
  destruct (bindExtensionDecl_chains_generic_params ExtensionExamples.validate_nested
              ExtensionExamples.ext_nested (mkTC [] [] []) ED' st'
              (fun i => match i with
                        | 0 => BoundType (TyUnboundGeneric ExtensionExamples.Outer)
                        | _ => BoundType (TyUnboundGeneric ExtensionExamples.Inner)
                        end)
              (TyUnboundGeneric ExtensionExamples.Inner) eq_refl eq_refl Hb)
    as (H1 & H2 & _).
  - vm_compute in Hb. inversion Hb; subst. simpl. discriminate.
  - split; [exact H1|exact H2].
Defined.

(** For an unbound extension whose path names no metatype, the binder
    calls [validateType] exactly once, with the names of all components.
    If validation fails it only sets the error type and the invalid mark,
    emitting no diagnostic of its own; if the resolved type is neither
    nominal nor unbound generic (and no arity check aborted), it emits the
    component diagnostics then one non-nominal diagnostic, and sets the
    error type and the invalid mark without registering anything. *)
Theorem bindExtensionDecl_validation_outcomes
  (validateType : list Identifier -> nat -> ValidateResult)
  (ED : ExtensionDecl) (st : TCState) :
  ext_ExtendedType ED = None ->
  (forall k r, nth_error (ext_RefComponents ED) k = Some r -> 0 < k ->
               ref_Name r <> Id_Type) ->
  let comps := map ref_Name (ext_RefComponents ED) in
  let st1 := record_call (CallValidateType comps (ext_DeclContext ED)) st in
  tc_calls (snd (bindExtensionDecl validateType ED st)) = tc_calls st1
  /\ (validateType comps (ext_DeclContext ED) = ValidateFailed ->
      bindExtensionDecl validateType ED st = (set_error ED, st1))
  /\ (forall bound t ds rs,
      validateType comps (ext_DeclContext ED) = Validated bound t ->
      check_components bound 0 None (ext_RefComponents ED) = (ds, rs, false) ->
      (forall d, t <> TyNominal d /\ t <> TyUnboundGeneric d) ->
      bindExtensionDecl validateType ED st
      = (set_error (set_components rs ED),
         diagnose (non_nominal_extension (ext_id ED) t) (diagnose_all ds st1))).
Proof.
  intros He Hn comps st1.
  assert (Hs : synthesize_components (ext_RefComponents ED) [] = inr comps)
    by (apply synthesize_ok; intros k r Hk [Hc|Hc]; [exact (Hn k r Hk Hc)|now destruct Hc]).
  unfold bindExtensionDecl. rewrite He, Hs.
  split; [|split].
  - destruct (validateType comps (ext_DeclContext ED)) as [|bound t]; [reflexivity|].
    destruct (check_components bound 0 None (ext_RefComponents ED)) as [[ds rs] ab].
    destruct ab; [reflexivity|]. destruct t; reflexivity.
  - intros Hv. now rewrite Hv.
  - intros bound t ds rs Hv Hc Ht. rewrite Hv, Hc.
    destruct t as [d|d| |n].
    + now destruct (Ht d).
    + now destruct (Ht d).
    + reflexivity.
    + reflexivity.
Qed.

Lemma bindExtensionDecl_validation_outcomes_witness :
  bindExtensionDecl ExtensionExamples.validate_fail ExtensionExamples.ext_S1 (mkTC [] [] [])
  = (set_error ExtensionExamples.ext_S1,
     record_call (CallValidateType ["S"%string] 0) (mkTC [] [] [])).
Proof.
  refine (proj1 (proj2 (bindExtensionDecl_validation_outcomes
                          ExtensionExamples.validate_fail ExtensionExamples.ext_S1
                          (mkTC [] [] []) eq_refl _)) eq_refl).
  intros [|[|k]] r Hk Hc; simpl in Hk; try discriminate. lia.
Defined.

End ExtensionFacts.

(** ** Capability lookup: proofs *)
Module ProtocolFacts.
Import Protocols.

Lemma getLiteralProtocol_dispatch
  (registry : KnownProtocolKind -> option ProtocolDecl)
  (validateDecl_invalid : ProtocolDecl -> bool) (e : Expr) (st : PState) :
  getLiteralProtocol registry validateDecl_invalid e st
  = match literal_capability (expr_kind e) with
    | Some k => getProtocol registry validateDecl_invalid (expr_loc e) k st
    | None => (None, st)
    end.
Proof.
  destruct e as [loc [| | | | | | |[|]| |[| | | ]|n]]; reflexivity.
Qed.

(** Amended claim C5.  For every expression, [getLiteralProtocol] looks up
    through [getProtocol], at the expression's location, exactly the
    capability of the table extended with character literal to
    character-literal-constructible, and returns none, with no lookup and
    no effect, for every expression outside the table. *)
Theorem getLiteralProtocol_table
  (registry : KnownProtocolKind -> option ProtocolDecl)
  (validateDecl_invalid : ProtocolDecl -> bool) (e : Expr) (st : PState) :
  getLiteralProtocol registry validateDecl_invalid e st
  = match literal_capability (expr_kind e) with
    | Some k => getProtocol registry validateDecl_invalid (expr_loc e) k st
    | None => (None, st)
    end.
Proof.
  destruct e as [loc [| | | | | | |[|]| |[| | | ]|n]]; reflexivity.
Qed.

(** Claim C5 as stated fails: a character literal maps to
    character-literal-constructible, a row that is not in the table. *)
Lemma getLiteralProtocol_table_counterexample :
  fst (getLiteralProtocol full_registry never_invalid
         (mkExpr (Some 0) CharacterLiteralExpr) (mkPState [] []))
  = Some (mkProtocol CharacterLiteralConvertible true)
  /\ spec_literal_capability CharacterLiteralExpr = None.
Proof. split; reflexivity. Qed.

(** Amended claim C8.  When the capability is absent from the registry,
    [getProtocol] returns none; it emits one missing-protocol diagnostic
    when the lookup location is valid and none when it is invalid, and has
    no other effect.  [getLiteralProtocol] passes the none on to its
    caller. *)
Theorem getProtocol_missing
  (registry : KnownProtocolKind -> option ProtocolDecl)
  (validateDecl_invalid : ProtocolDecl -> bool)
  (loc : SourceLoc) (kind : KnownProtocolKind) (st : PState) :
  registry kind = None ->
  getProtocol registry validateDecl_invalid loc kind st
  = (None, mkPState (ps_diags st ++ match loc with
                                    | Some _ => [missing_protocol kind]
                                    | None => []
                                    end) (ps_validated st))
  /\ forall e, literal_capability (expr_kind e) = Some kind -> expr_loc e = loc ->
     getLiteralProtocol registry validateDecl_invalid e st
     = getProtocol registry validateDecl_invalid loc kind st.
Proof.
  intros Hr. split.
  - unfold getProtocol. rewrite Hr.
    destruct loc; [reflexivity|]. destruct st; simpl. now rewrite app_nil_r.
  - intros e Hk Hl. rewrite getLiteralProtocol_dispatch, Hk, Hl. reflexivity.
Qed.

Lemma getProtocol_missing_witness :
  getProtocol empty_registry never_invalid (Some 3) StringLiteralConvertible
    (mkPState [] [])
  = (None, mkPState ([] ++ [missing_protocol StringLiteralConvertible]) [])
  /\ getProtocol empty_registry never_invalid None StringLiteralConvertible
       (mkPState [] [])
     = (None, mkPState ([] ++ []) []).
Proof.
  split.
  - exact (proj1 (getProtocol_missing empty_registry never_invalid (Some 3)
                    StringLiteralConvertible (mkPState [] []) eq_refl)).
  - exact (proj1 (getProtocol_missing empty_registry never_invalid None
                    StringLiteralConvertible (mkPState [] []) eq_refl)).
Defined.

(** Claim C8 as stated fails: a lookup at an invalid location (as for an
    implicit literal expression) of an absent capability emits no
    diagnostic. *)
Lemma getProtocol_missing_counterexample :
  getLiteralProtocol empty_registry never_invalid
    (mkExpr None (StringLiteralExpr false)) (mkPState [] [])
  = (None, mkPState [] []).
Proof. reflexivity. Qed.

(** When the capability is in the registry, [getProtocol] emits no
    diagnostic.  A protocol that already has a type is returned with no
    effect; otherwise it is validated once and returned unless validation
    marks it invalid, in which case the result is none. *)
Theorem getProtocol_present
  (registry : KnownProtocolKind -> option ProtocolDecl)
  (validateDecl_invalid : ProtocolDecl -> bool)
  (loc : SourceLoc) (kind : KnownProtocolKind) (st : PState) (p : ProtocolDecl) :
  registry kind = Some p ->
  getProtocol registry validateDecl_invalid loc kind st
  = if protocol_hasType p then (Some p, st)
    else (if validateDecl_invalid p then None else Some p,
          mkPState (ps_diags st) (ps_validated st ++ [p])).
Proof.
  intros Hr. unfold getProtocol. rewrite Hr.
  destruct (protocol_hasType p); simpl; [reflexivity|].
  destruct (validateDecl_invalid p); reflexivity.
Qed.

Lemma getProtocol_present_witness :
  getProtocol full_registry (fun _ => true) None IntegerLiteralConvertible (mkPState [] [])
  = (Some (mkProtocol IntegerLiteralConvertible true), mkPState [] []).
Proof.
  exact (getProtocol_present full_registry (fun _ => true) None IntegerLiteralConvertible
           (mkPState [] []) (mkProtocol IntegerLiteralConvertible true) eq_refl).
Defined.

(** A literal lookup has at most one effect: it changes nothing, or it
    validates the one registered protocol that has no type yet, or it
    emits the one missing-protocol diagnostic (and returns none). *)
Theorem getLiteralProtocol_single_effect
  (registry : KnownProtocolKind -> option ProtocolDecl)
  (validateDecl_invalid : ProtocolDecl -> bool) (e : Expr) (st : PState) :
  let '(r, st') := getLiteralProtocol registry validateDecl_invalid e st in
  st' = st
  \/ (exists k p, literal_capability (expr_kind e) = Some k /\ registry k = Some p
       /\ protocol_hasType p = false
       /\ st' = mkPState (ps_diags st) (ps_validated st ++ [p]))
  \/ (exists k, literal_capability (expr_kind e) = Some k /\ registry k = None
       /\ r = None /\ st' = mkPState (ps_diags st ++ [missing_protocol k]) (ps_validated st)).
Proof.
  rewrite getLiteralProtocol_dispatch.
  destruct (literal_capability (expr_kind e)) as [k|] eqn:Hk; [|simpl; left; reflexivity].
  unfold getProtocol.
  destruct (registry k) as [p|] eqn:Hr.
  - destruct (protocol_hasType p) eqn:Ht; simpl.
    + left. reflexivity.
    + destruct (validateDecl_invalid p); simpl; right; left; exists k, p; auto.
  - destruct (expr_loc e); simpl.
    + right; right. exists k. auto.
    + left. reflexivity.
Qed.

End ProtocolFacts.

(** ** Syntactic conformance scan: proofs *)
Module ConformanceFacts.
Import Conformance.

Lemma matchesKnownProtocol_In (known : list string) (id : string) :
  matchesKnownProtocol known id = true <-> In id known.
Proof.
  unfold matchesKnownProtocol. rewrite existsb_exists. split.
  - intros [x [Hx Heq]]. apply String.eqb_eq in Heq. now subst.
  - intros H. exists id. split; [exact H | apply String.eqb_refl].
Qed.

Lemma scanInherited_iff (known : list string) (l : list TypeLoc) :
  scanInherited known l = true <->
  exists c cs id, In (Some (IdentTypeRepr c cs)) l
                  /\ last (c :: cs) c = SimpleIdentTypeRepr id /\ In id known.
Proof.
  induction l as [|tl rest IH]; cbn [scanInherited In].
  - split; [discriminate | intros (c & cs & id & [] & _)].
  - assert (Hrest : scanInherited known rest = true ->
              exists c cs id, (tl = Some (IdentTypeRepr c cs) \/
                               In (Some (IdentTypeRepr c cs)) rest)
                              /\ last (c :: cs) c = SimpleIdentTypeRepr id /\ In id known).
    { intros H. apply IH in H. destruct H as (c & cs & id & H1 & H2 & H3).
      exists c, cs, id. auto. }
    split.
    + destruct tl as [[c cs|n]|].
      * destruct (last (c :: cs) c) as [id|id args] eqn:Hlast.
        -- destruct (matchesKnownProtocol known id) eqn:Hm.
           ++ intros _. apply matchesKnownProtocol_In in Hm. exists c, cs, id. auto.
           ++ exact Hrest.
        -- exact Hrest.
      * exact Hrest.
      * exact Hrest.
    + intros (c & cs & id & [Heq | Hin] & Hlast & Hk).
      * subst tl. rewrite Hlast.
        apply matchesKnownProtocol_In in Hk. now rewrite Hk.
      * assert (Hr : scanInherited known rest = true)
          by (apply IH; exists c, cs, id; auto).
        destruct tl as [[c' cs'|n]|]; [|exact Hr|exact Hr].
        destruct (last (c' :: cs') c'); [|exact Hr].
        destruct (matchesKnownProtocol known id0); [reflexivity|exact Hr].
Qed.

(** Claim C7.  [mayConformToKnownProtocol] answers true exactly when some
    written inheritance entry is an identifier type whose last component
    is a simple identifier spelled exactly as one of the known protocol
    names (plain string equality, no resolution); an entry whose last
    component is not a simple identifier, or that is not an identifier
    type, never changes the answer. *)
Theorem mayConformToKnownProtocol_spec (known : list string) (D : InheritingDecl) :
  (mayConformToKnownProtocol known D = true <->
   exists c cs id, In (Some (IdentTypeRepr c cs)) (getInherited D)
                   /\ last (c :: cs) c = SimpleIdentTypeRepr id
                   /\ existsb (String.eqb id) known = true)
  /\ forall pre t post,
     (forall c cs id, t = Some (IdentTypeRepr c cs) ->
                      last (c :: cs) c <> SimpleIdentTypeRepr id) ->
     mayConformToKnownProtocol known (mkInheritingDecl (pre ++ t :: post))
     = mayConformToKnownProtocol known (mkInheritingDecl (pre ++ post)).
Proof.
  split.
  - unfold mayConformToKnownProtocol. rewrite scanInherited_iff.
    split; intros (c & cs & id & H1 & H2 & H3); exists c, cs, id;
      repeat split; auto; apply (matchesKnownProtocol_In known id); exact H3.
  - intros pre t post Ht. unfold mayConformToKnownProtocol; cbn [getInherited].
    induction pre as [|tl rest IH]; cbn [scanInherited app].
    + destruct t as [[c cs|n]|]; try reflexivity.
      destruct (last (c :: cs) c) as [id|id args] eqn:Hlast; [|reflexivity].
      exfalso. exact (Ht c cs id eq_refl Hlast).
    + destruct tl as [[c cs|n]|]; try exact IH.
      destruct (last (c :: cs) c); [|exact IH].
      destruct (matchesKnownProtocol known id); [reflexivity|exact IH].
Qed.

(** The scan over a concatenation of inheritance lists answers the
    disjunction of the two scans, so reordering the written entries never
    changes the answer. *)
Theorem mayConformToKnownProtocol_app_perm (known : list string) (l1 l2 : list TypeLoc) :
  mayConformToKnownProtocol known (mkInheritingDecl (l1 ++ l2))
  = mayConformToKnownProtocol known (mkInheritingDecl l1)
    || mayConformToKnownProtocol known (mkInheritingDecl l2)
  /\ (Permutation l1 l2 ->
      mayConformToKnownProtocol known (mkInheritingDecl l1)
      = mayConformToKnownProtocol known (mkInheritingDecl l2)).
Proof.
  unfold mayConformToKnownProtocol; cbn [getInherited]. split.
  - induction l1 as [|tl rest IH]; cbn [scanInherited app]; [reflexivity|].
    destruct tl as [[c cs|n]|]; try exact IH.
    destruct (last (c :: cs) c); [|exact IH].
    destruct (matchesKnownProtocol known id); [reflexivity|exact IH].
  - intros Hp.
    destruct (scanInherited known l2) eqn:H2.
    + apply scanInherited_iff in H2. apply scanInherited_iff.
      destruct H2 as (c & cs & id & Hin & Hl & Hk). exists c, cs, id.
      split; [|auto]. now apply (Permutation_in _ (Permutation_sym Hp)).
    + destruct (scanInherited known l1) eqn:H1; [|reflexivity].
      apply scanInherited_iff in H1. rewrite <- H2. symmetry. apply scanInherited_iff.
      destruct H1 as (c & cs & id & Hin & Hl & Hk). exists c, cs, id.
      split; [|auto]. now apply (Permutation_in _ Hp).
Qed.

End ConformanceFacts.

(** ** Sealing pass: proofs *)
Module SealingFacts.
Import Sealing.

Ltac split_step :=
  repeat (simpl; match goal with
  | |- context [match ?x with _ => _ end] => destruct x
  | |- context [if ?b then _ else _] => destruct b
  end); simpl; auto.

(** Case analysis that splits the inner boolean atoms first, so that both
    sides of an equation are split the same way. *)
Ltac split_atoms :=
  repeat (simpl; first
    [ match goal with |- context [isInferredDynamic ?x] => destruct (isInferredDynamic x) end
    | match goal with |- context [vd_final ?x] => destruct (vd_final x) end
    | match goal with |- context [match ?x with _ => _ end] => is_var x; destruct x end
    | match goal with |- context [match ?x with _ => _ end] => destruct x end ]);
  simpl; auto.

Lemma walkToDeclPre_keeps_final (wmc : bool) (v : ValueDecl) :
  vd_final (snd (fst (walkToDeclPre wmc v))) = vd_final v.
Proof.
  unfold walkToDeclPre, addFinal, removeDynamicAttr.
  destruct v as [id k fin inv acc dyn ov accr ovd inc]; simpl.
  split_step.
Qed.

Lemma walkToDeclPre_keeps_id (wmc : bool) (v : ValueDecl) :
  vd_id (snd (fst (walkToDeclPre wmc v))) = vd_id v.
Proof.
  unfold walkToDeclPre, addFinal, removeDynamicAttr.
  destruct v as [id k fin inv acc dyn ov accr ovd inc]; simpl.
  split_step.
Qed.

Lemma walk_list_finals (wmc : bool) (cs : list Decl) :
  Forall (fun d => finals (fst (walk wmc d)) = finals d) cs ->
  flat_map finals (map fst (map (walk wmc) cs)) = flat_map finals cs.
Proof.
  induction 1 as [|d cs Hd _ IH]; simpl; [reflexivity|].
  now rewrite Hd, IH.
Qed.

Lemma walk_keeps_finals (wmc : bool) (d : Decl) :
  finals (fst (walk wmc d)) = finals d.
Proof.
  induction d as [v cs Hcs|n cs Hcs] using Decl_ind'; simpl.
  - pose proof (walkToDeclPre_keeps_final wmc v) as Hf.
    pose proof (walkToDeclPre_keeps_id wmc v) as Hi.
    destruct (walkToDeclPre wmc v) as [[cont v'] calls]; simpl in *.
    destruct cont; simpl; rewrite Hf, Hi; [now rewrite walk_list_finals|reflexivity].
  - now apply walk_list_finals.
Qed.

Lemma perform_keeps_finals (files : list SourceFile) (wmc : bool) :
  file_finals (fst (performWholeModuleChecks files wmc)) = file_finals files.
Proof.
  unfold performWholeModuleChecks, file_finals; simpl.
  induction files as [|SF rest IH]; simpl; [reflexivity|].
  rewrite IH. f_equal.
  destruct (wmc || sf_isPrimary SF); simpl; [|reflexivity].
  apply walk_list_finals. apply Forall_forall. intros d _. apply walk_keeps_finals.
Qed.

(** Amended claim C9.  The sealing pass seals nothing: over all files, in
    either compilation mode, every declaration keeps its sealed flag,
    because [addFinal] is disabled.  Its decision step asks for sealing
    never for a public member, never for an internal member outside
    whole-module mode, never for a setter whose storage is unsealed, and
    does ask for it, without effect, for an internal, valid, unsealed,
    non-dynamic, never-overridden storage or non-setter-of-unsealed-storage
    function member of a class in whole-module mode. *)
Theorem sealing_pass_never_seals (files : list SourceFile) (wmc : bool) :
  file_finals (fst (performWholeModuleChecks files wmc)) = file_finals files
  /\ forall v : ValueDecl,
     (vd_access v = Some Public -> snd (walkToDeclPre wmc v) = [])
     /\ (vd_access v = Some Internal -> wmc = false -> snd (walkToDeclPre wmc v) = [])
     /\ (vd_kind v = KFunc -> isSetterWithUnsealedStorage v = true ->
         snd (walkToDeclPre wmc v) = [])
     /\ (vd_access v = Some Internal -> wmc = true -> vd_final v = false ->
         vd_invalid v = false -> vd_dynamic v = None -> vd_isOverridden v = false ->
         vd_inClass v = true ->
         (vd_kind v = KStorage \/
          (vd_kind v = KFunc /\ isSetterWithUnsealedStorage v = false)) ->
         snd (walkToDeclPre wmc v) = [vd_id v]
         /\ vd_final (snd (fst (walkToDeclPre wmc v))) = false).
Proof.
  split; [apply perform_keeps_finals|].
  intros v. rewrite walkToDeclPre_keeps_final.
  destruct v as [id k fin inv acc dyn ov accr ovd inc]; simpl.
  unfold walkToDeclPre, hasAccessibility, addFinal, removeDynamicAttr; simpl.
  split; [|split; [|split]].
  - intros ->. destruct k; split_step.
  - intros -> ->. destruct k; split_step.
  - intros -> Hs. rewrite Hs. split_step.
  - intros -> -> -> -> -> -> -> [-> | [-> Hs]]; simpl; [split; reflexivity|].
    rewrite Hs. split; reflexivity.
Qed.

(** Claim C9 as stated fails: in whole-module mode an internal,
    never-overridden stored property of a class is not sealed by the pass,
    although the pass calls [addFinal] on it. *)
Lemma sealing_pass_never_seals_counterexample :
  file_finals (fst (performWholeModuleChecks [class_file] true))
  = [(0, false); (1, false)]
  /\ snd (performWholeModuleChecks [class_file] true) = [1].
Proof. split; reflexivity. Qed.

Lemma walkToDeclPre_requests (wmc : bool) (v : ValueDecl) :
  snd (walkToDeclPre wmc v) = if addFinal_requested wmc v then [vd_id v] else [].
Proof.
  unfold walkToDeclPre, addFinal_requested, addFinal, removeDynamicAttr, hasAccessibility,
    isSetterWithUnsealedStorage.
  destruct v as [id k fin inv acc dyn ov accr ovd inc]; simpl.
  destruct k, fin, inv, ovd, inc, wmc; simpl;
    destruct acc as [[| |]|], dyn as [[|]|]; split_atoms.
Qed.

Lemma walkToDeclPre_decl (wmc : bool) (v : ValueDecl) :
  snd (fst (walkToDeclPre wmc v))
  = if addFinal_requested wmc v && match vd_dynamic v with Some _ => true | None => false end
    then removeDynamicAttr v else v.
Proof.
  unfold walkToDeclPre, addFinal_requested, addFinal, removeDynamicAttr, hasAccessibility,
    isSetterWithUnsealedStorage.
  destruct v as [id k fin inv acc dyn ov accr ovd inc]; simpl.
  destruct k, fin, inv, ovd, inc, wmc; simpl;
    destruct acc as [[| |]|], dyn as [[|]|]; split_atoms.
Qed.

Lemma walkToDeclPre_prune (wmc : bool) (v : ValueDecl) :
  vd_kind v <> KConstructor -> vd_kind v <> KDestructor ->
  vd_final v || vd_invalid v || negb (hasAccessibility v) = true ->
  walkToDeclPre wmc v = (false, v, []).
Proof.
  intros H1 H2 H3. unfold walkToDeclPre. rewrite H3.
  destruct (vd_kind v); try reflexivity; congruence.
Qed.

Lemma isInferredDynamic_explicit (v : ValueDecl) :
  vd_dynamic v = Some false -> isInferredDynamic v = false.
Proof.
  destruct v as [id k fin inv acc dyn ov accr ovd inc]; simpl. intros ->.
  destruct (negb _); reflexivity.
Qed.

Lemma walk_list_strip (wmc : bool) (cs : list Decl) :
  Forall (fun d => strip_dynamic (fst (walk wmc d)) = strip_dynamic d) cs ->
  map strip_dynamic (map fst (map (walk wmc) cs)) = map strip_dynamic cs.
Proof.
  induction 1 as [|d cs Hd _ IH]; simpl; [reflexivity|]. now rewrite Hd, IH.
Qed.

(** The sealing walk changes nothing in a declaration tree but the
    [dynamic] attributes of its value declarations; it leaves a value
    declaration that is sealed, invalid or without accessibility (other
    than an initializer or deinitializer) unchanged, its members
    unvisited, and makes no [addFinal] call in it. *)
Theorem walk_changes_only_dynamic (wmc : bool) (d : Decl) :
  strip_dynamic (fst (walk wmc d)) = strip_dynamic d
  /\ forall v cs, vd_kind v <> KConstructor -> vd_kind v <> KDestructor ->
     vd_final v || vd_invalid v || negb (hasAccessibility v) = true ->
     walk wmc (DValue v cs) = (DValue v cs, []).
Proof.
  split.
  - induction d as [v cs Hcs|n cs Hcs] using Decl_ind'; simpl.
    + pose proof (walkToDeclPre_decl wmc v) as Hv.
      destruct (walkToDeclPre wmc v) as [[cont v'] calls]; simpl in Hv.
      assert (Hr : removeDynamicAttr v' = removeDynamicAttr v)
        by (rewrite Hv; destruct (_ && _); reflexivity).
      destruct cont; simpl; rewrite Hr; [now rewrite walk_list_strip|reflexivity].
    + now rewrite walk_list_strip.
  - intros v cs H1 H2 H3. simpl. rewrite (walkToDeclPre_prune wmc v H1 H2 H3). reflexivity.
Qed.

Lemma walk_list_requests (wmc : bool) (cs : list Decl) (x : nat) :
  Forall (fun d => forall x, In x (snd (walk wmc d)) ->
            exists v, In v (values d) /\ vd_id v = x /\ addFinal_requested wmc v = true) cs ->
  In x (concat (map snd (map (walk wmc) cs))) ->
  exists v, In v (flat_map values cs) /\ vd_id v = x /\ addFinal_requested wmc v = true.
Proof.
  induction 1 as [|d cs Hd _ IH]; simpl; [intros []|].
  intros Hin. apply in_app_or in Hin as [Hin|Hin].
  - destruct (Hd x Hin) as (v & H1 & H2 & H3). exists v. split; [apply in_or_app; auto|auto].
  - destruct (IH Hin) as (v & H1 & H2 & H3). exists v. split; [apply in_or_app; auto|auto].
Qed.

(** [walkToDeclPre] calls [addFinal] on a declaration exactly when it is a
    storage or function declaration of a class, not sealed, valid, private
    (or internal in whole-module mode), never overridden, not explicitly
    [dynamic] (along the chain [isInferredDynamic] follows), and not a setter
    whose storage is unsealed.  Over a whole tree, every [addFinal] call is
    made on such a declaration of the tree. *)
Theorem walk_addFinal_requests (wmc : bool) (d : Decl) :
  (forall v, snd (walkToDeclPre wmc v) = if addFinal_requested wmc v then [vd_id v] else [])
  /\ forall x, In x (snd (walk wmc d)) ->
     exists v, In v (values d) /\ vd_id v = x /\ addFinal_requested wmc v = true.
Proof.
  split; [apply walkToDeclPre_requests|].
  induction d as [v cs Hcs|n cs Hcs] using Decl_ind'; simpl.
  - pose proof (walkToDeclPre_requests wmc v) as Hq.
    destruct (walkToDeclPre wmc v) as [[cont v'] calls]; simpl in Hq. subst calls.
    intros x Hx.
    assert (Hhead : In x (if addFinal_requested wmc v then [vd_id v] else []) ->
                    exists v0, (v = v0 \/ In v0 (flat_map values cs)) /\ vd_id v0 = x
                               /\ addFinal_requested wmc v0 = true).
    { destruct (addFinal_requested wmc v) eqn:Ha; simpl; [|intros []].
      intros [<-|[]]. exists v. auto. }
    destruct cont; simpl in Hx.
    + apply in_app_or in Hx as [Hx|Hx]; [now apply Hhead|].
      destruct (walk_list_requests wmc cs x Hcs Hx) as (v0 & H1 & H2 & H3).
      exists v0. auto.
    + now apply Hhead.
  - intros x Hx. exact (walk_list_requests wmc cs x Hcs Hx).
Qed.

(** The walk removes a [dynamic] attribute only from a declaration it
    calls [addFinal] on, and never touches a declaration whose [dynamic]
    was written explicitly: such a declaration gets no [addFinal] call and
    keeps its attribute. *)
Theorem walkToDeclPre_dynamic_removal (wmc : bool) (v : ValueDecl) :
  snd (fst (walkToDeclPre wmc v))
  = (if addFinal_requested wmc v && match vd_dynamic v with Some _ => true | None => false end
     then removeDynamicAttr v else v)
  /\ (vd_dynamic v = Some false ->
      snd (walkToDeclPre wmc v) = [] /\ snd (fst (walkToDeclPre wmc v)) = v).
Proof.
  split; [apply walkToDeclPre_decl|].
  intros Hd.
  assert (Hr : addFinal_requested wmc v = false).
  { unfold addFinal_requested. rewrite Hd, (isInferredDynamic_explicit v Hd).
    rewrite !andb_false_r. simpl. destruct (vd_kind v); reflexivity. }
  rewrite walkToDeclPre_requests, walkToDeclPre_decl, Hr. auto.
Qed.

Lemma walkToDeclPre_dynamic_removal_witness :
  vd_dynamic (mkValueDecl 5 KFunc false false (Some Private) (Some false) None None false true)
  = Some false
  /\ snd (walkToDeclPre true
           (mkValueDecl 5 KFunc false false (Some Private) (Some false) None None false true))
     = [].
Proof.
  split; [reflexivity|].
  exact (proj1 (proj2 (walkToDeclPre_dynamic_removal true
           (mkValueDecl 5 KFunc false false (Some Private) (Some false) None None false true))
           eq_refl)).
Defined.

(** Outside whole-module mode, [performWholeModuleChecks] leaves every
    non-primary file as it is and makes all its [addFinal] calls in the
    primary files. *)
Theorem performWholeModuleChecks_primary_only (files : list SourceFile) :
  (forall i SF, nth_error files i = Some SF -> sf_isPrimary SF = false ->
     nth_error (fst (performWholeModuleChecks files false)) i = Some SF)
  /\ snd (performWholeModuleChecks files false)
     = snd (performWholeModuleChecks (filter sf_isPrimary files) false).
Proof.
  unfold performWholeModuleChecks; cbn [fst snd]. split.
  - intros i SF Hi Hp. rewrite !nth_error_map, Hi. simpl. now rewrite Hp.
  - induction files as [|SF rest IH]; [reflexivity|]. simpl in IH |- *.
    destruct (sf_isPrimary SF) eqn:Hp; simpl; rewrite ?Hp; simpl; [now rewrite IH|exact IH].
Qed.

End SealingFacts.

(** ** Scheduler: proofs *)
Module SchedulerFacts.
Import Scheduler.

(** *** Loop invariant *)

Lemma firstn_snoc_nth {A} (l g : list A) j d :
  nth_error l j = Some d -> firstn (S j) (l ++ g) = firstn j l ++ [d].
Proof.
  revert j; induction l as [|x l IH]; intros [|j] H; simpl in *; try discriminate.
  - now inversion H.
  - f_equal. now apply IH.
Qed.

Lemma firstn_app_le {A} (l g : list A) j :
  j <= length l -> firstn j (l ++ g) = firstn j l.
Proof.
  intros H. rewrite firstn_app.
  replace (j - length l) with 0 by lia. simpl. apply app_nil_r.
Qed.

Lemma slice_grow {A} (l g : list A) a c :
  a <= c -> (c = a \/ c <= length l) ->
  firstn (c - a) (skipn a (l ++ g)) = firstn (c - a) (skipn a l).
Proof.
  intros Hac [->|Hc].
  - now rewrite Nat.sub_diag.
  - rewrite skipn_app. replace (a - length l) with 0 by lia. rewrite skipn_O.
    apply firstn_app_le. rewrite length_skipn. lia.
Qed.

Lemma slice_snoc {A} (l g : list A) a c d :
  a <= c -> nth_error l c = Some d ->
  firstn (S c - a) (skipn a (l ++ g)) = firstn (c - a) (skipn a l) ++ [d].
Proof.
  intros Hac Hd.
  assert (c < length l) by (apply nth_error_Some; congruence).
  replace (S c - a) with (S (c - a)) by lia.
  rewrite skipn_app. replace (a - length l) with 0 by lia. rewrite skipn_O.
  apply firstn_snoc_nth. rewrite nth_error_skipn.
  now replace (a + (c - a)) with c by lia.
Qed.

Lemma perm_grow_funcs {A} (d i base lf li p q : list A) :
  Permutation (d ++ i) (base ++ lf ++ li) ->
  Permutation ((d ++ p) ++ (i ++ q)) (base ++ (lf ++ p) ++ (li ++ q)).
Proof.
  intros H.
  transitivity ((d ++ i) ++ (p ++ q)).
  { rewrite <- !app_assoc. apply Permutation_app_head.
    apply Permutation_app_swap_app. }
  transitivity ((base ++ lf ++ li) ++ (p ++ q)).
  { now apply Permutation_app_tail. }
  rewrite <- !app_assoc. apply Permutation_app_head, Permutation_app_head.
  apply Permutation_app_swap_app.
Qed.

Lemma perm_grow_funcs2 {A} (d i b1 b2 lf li p q : list A) :
  Permutation (d ++ i) (b1 ++ b2 ++ lf ++ li) ->
  Permutation ((d ++ p) ++ (i ++ q)) (b1 ++ b2 ++ (lf ++ p) ++ (li ++ q)).
Proof.
  intros H. rewrite (app_assoc b1 b2). apply perm_grow_funcs.
  now rewrite <- app_assoc.
Qed.

Lemma perm_grow_stack {A} (x y z g : list A) :
  Permutation (x ++ y) z -> Permutation (x ++ (rev g ++ y)) (z ++ g).
Proof.
  intros H.
  transitivity (rev g ++ x ++ y). { apply Permutation_app_swap_app. }
  transitivity (g ++ z).
  { apply Permutation_app. - apply Permutation_sym, Permutation_rev. - exact H. }
  apply Permutation_app_comm.
Qed.

Lemma firstn_skipn_app {A} (l g : list A) s k :
  s + k <= length l -> firstn k (skipn s (l ++ g)) = firstn k (skipn s l).
Proof.
  intros H. rewrite skipn_app. replace (s - length l) with 0 by lia.
  rewrite skipn_O. apply firstn_app_le. rewrite length_skipn. lia.
Qed.

Section Invariant.

Variable typeCheckAbstractFunctionBody : nat -> State -> Growth.
Variable handleExternalDecl : nat -> State -> Growth.
Variable computeCaptures : nat -> State -> Growth.
Variable typeCheckDecl : nat -> State -> Growth.

Local Abbreviation ext_step := (Scheduler.ext_step typeCheckAbstractFunctionBody handleExternalDecl).
Local Abbreviation drain_ext := (Scheduler.drain_ext typeCheckAbstractFunctionBody handleExternalDecl).
Local Abbreviation ext_loop := (Scheduler.ext_loop typeCheckAbstractFunctionBody handleExternalDecl).
Local Abbreviation drain_funcs := (Scheduler.drain_funcs typeCheckAbstractFunctionBody).
Local Abbreviation func_loop := (Scheduler.func_loop typeCheckAbstractFunctionBody).
Local Abbreviation captures_loop := (Scheduler.captures_loop computeCaptures).
Local Abbreviation drain_validated := (Scheduler.drain_validated typeCheckDecl).
Local Abbreviation iteration := (Scheduler.iteration typeCheckAbstractFunctionBody
                              handleExternalDecl computeCaptures typeCheckDecl).
Local Abbreviation sched := (Scheduler.sched typeCheckAbstractFunctionBody
                          handleExternalDecl computeCaptures typeCheckDecl).

Variable st0 : State.
Let a := LastCheckedExternalDefinition st0.

(** [m] is a lower bound on the length of the external definitions, [fi]
    and [ce] the two cursors. *)
Record Inv (m fi ce : nat) (st : State) (lg : Log) : Prop := {
  inv_ext : ExternalDefinitions st = ExternalDefinitions st0 ++ lg_ext lg;
  inv_funcs : Permutation (definedFunctions st ++ implicitlyDefinedFunctions st)
                (definedFunctions st0 ++ implicitlyDefinedFunctions st0
                 ++ lg_funcs lg ++ lg_impl lg);
  inv_fi : fi <= length (definedFunctions st);
  inv_bodies : bodies (trace lg) = firstn fi (definedFunctions st);
  inv_ce : a <= ce;
  inv_ce_len : ce = a \/ ce <= length (ExternalDefinitions st);
  inv_exts : ext_processed (trace lg) = firstn (ce - a) (skipn a (ExternalDefinitions st));
  inv_valid : Permutation (first_passes (trace lg) ++ ValidatedTypes st)
                (ValidatedTypes st0 ++ lg_valid lg);
  inv_m : m <= length (ExternalDefinitions st)
}.

Lemma Inv_init : Inv 0 0 a st0 empty_log.
Proof.
  constructor; simpl; auto; try lia.
  - now rewrite app_nil_r.
  - now rewrite !app_nil_r.
  - now rewrite Nat.sub_diag.
  - now rewrite app_nil_r.
Qed.

(** Generic step: an invocation whose event is none of the projected
    kinds except possibly the given ones leaves the invariant intact. *)
Lemma Inv_call_captures m fi ce st lg f g :
  Inv m fi ce st lg ->
  Inv m fi ce (apply_growth g st) (log_event (EvCaptures f) g lg).
Proof.
  intros [H1 H2 H3 H4 H5 H6 H7 H8 H9]; constructor; simpl.
  - rewrite H1. now rewrite app_assoc.
  - now apply perm_grow_funcs2.
  - rewrite length_app. lia.
  - unfold bodies in *. rewrite flat_map_app, H4. simpl.
    rewrite app_nil_r. symmetry. now apply firstn_app_le.
  - exact H5.
  - rewrite length_app. lia.
  - unfold ext_processed in *. rewrite flat_map_app, H7. simpl.
    rewrite app_nil_r. symmetry. now apply slice_grow.
  - unfold first_passes in *. rewrite flat_map_app. simpl. rewrite app_nil_r.
    rewrite (app_assoc (ValidatedTypes st0)). now apply perm_grow_stack.
  - rewrite length_app. lia.
Qed.

Lemma Inv_call_body m fi ce st lg f g :
  Inv m fi ce st lg -> nth_error (definedFunctions st) fi = Some f ->
  Inv m (S fi) ce (apply_growth g st) (log_event (EvBody f) g lg).
Proof.
  intros [H1 H2 H3 H4 H5 H6 H7 H8 H9] Hf; constructor; simpl.
  - rewrite H1. now rewrite app_assoc.
  - now apply perm_grow_funcs2.
  - rewrite length_app. assert (fi < length (definedFunctions st))
      by (apply nth_error_Some; congruence). lia.
  - unfold bodies in *. rewrite flat_map_app, H4. simpl.
    symmetry. now apply firstn_snoc_nth.
  - exact H5.
  - rewrite length_app. lia.
  - unfold ext_processed in *. rewrite flat_map_app, H7. simpl.
    rewrite app_nil_r. symmetry. now apply slice_grow.
  - unfold first_passes in *. rewrite flat_map_app. simpl. rewrite app_nil_r.
    rewrite (app_assoc (ValidatedTypes st0)). now apply perm_grow_stack.
  - rewrite length_app. lia.
Qed.

Lemma Inv_call_ext m fi ce st lg d st' lg' :
  Inv m fi ce st lg -> nth_error (ExternalDefinitions st) ce = Some d ->
  ext_step d st lg = Some (st', lg') ->
  Inv m fi (S ce) st' lg' /\ S ce <= length (ExternalDefinitions st').
Proof.
  intros [H1 H2 H3 H4 H5 H6 H7 H8 H9] Hd Hs.
  assert (Hlt : ce < length (ExternalDefinitions st))
    by (apply nth_error_Some; congruence).
  assert (Hev : exists e g, st' = apply_growth g st /\ lg' = log_event e g lg
                            /\ ev_ext e = [d] /\ ev_body e = [] /\ ev_first e = []).
  { destruct d; simpl in Hs; inversion Hs; subst; eauto 10. }
  destruct Hev as (e & g & -> & -> & He1 & He2 & He3).
  split; [constructor|]; simpl.
  - rewrite H1. now rewrite app_assoc.
  - now apply perm_grow_funcs2.
  - rewrite length_app. lia.
  - unfold bodies in *. rewrite flat_map_app, H4. simpl. rewrite He2.
    rewrite app_nil_r. symmetry. now apply firstn_app_le.
  - lia.
  - rewrite length_app. lia.
  - unfold ext_processed in *. rewrite flat_map_app, H7. simpl. rewrite He1.
    symmetry. now apply slice_snoc.
  - unfold first_passes in *. rewrite flat_map_app. simpl. rewrite He3, app_nil_r.
    rewrite (app_assoc (ValidatedTypes st0)). now apply perm_grow_stack.
  - rewrite length_app. lia.
  - rewrite length_app. lia.
Qed.

Lemma Inv_pop m fi ce st lg n rest g :
  Inv m fi ce st lg -> ValidatedTypes st = n :: rest ->
  let st1 := mkState (ExternalDefinitions st) (LastCheckedExternalDefinition st)
               (definedFunctions st) (implicitlyDefinedFunctions st) rest in
  Inv m fi ce (apply_growth g st1) (log_event (EvFirstPass n) g lg).
Proof.
  intros [H1 H2 H3 H4 H5 H6 H7 H8 H9] Hv st1; constructor; simpl.
  - rewrite H1. now rewrite app_assoc.
  - now apply perm_grow_funcs2.
  - rewrite length_app. lia.
  - unfold bodies in *. rewrite flat_map_app, H4. simpl.
    rewrite app_nil_r. symmetry. now apply firstn_app_le.
  - exact H5.
  - rewrite length_app. lia.
  - unfold ext_processed in *. rewrite flat_map_app, H7. simpl.
    rewrite app_nil_r. symmetry. now apply slice_grow.
  - unfold first_passes in *. rewrite flat_map_app. simpl.
    rewrite (app_assoc (ValidatedTypes st0)). apply perm_grow_stack.
    rewrite <- app_assoc. simpl. rewrite <- Hv. exact H8.
  - rewrite length_app. lia.
Qed.

Lemma Inv_move m fi ce st lg :
  Inv m fi ce st lg -> Inv m fi ce (move_implicit st) lg.
Proof.
  intros [H1 H2 H3 H4 H5 H6 H7 H8 H9]; constructor; simpl; auto.
  - now rewrite app_nil_r.
  - rewrite length_app. lia.
  - rewrite H4. symmetry. now apply firstn_app_le.
Qed.

Lemma Inv_raise m fi ce st lg :
  Inv m fi ce st lg -> ce <= length (ExternalDefinitions st) -> Inv ce fi ce st lg.
Proof. intros [H1 H2 H3 H4 H5 H6 H7 H8 H9] Hc; constructor; auto. Qed.

Lemma drain_ext_inv k : forall m fi ce st lg ce' st' lg',
  Inv m fi ce st lg -> drain_ext k ce st lg = Some (ce', st', lg') ->
  Inv m fi ce' st' lg' /\ ce' = ce + k
  /\ (k = 0 \/ ce' <= length (ExternalDefinitions st')).
Proof.
  induction k as [|k IH]; intros m fi ce st lg ce' st' lg' HI Hd; simpl in Hd.
  - inversion Hd; subst. rewrite Nat.add_0_r. auto.
  - destruct (nth_error (ExternalDefinitions st) ce) as [d|] eqn:Hn; [|discriminate].
    destruct (ext_step d st lg) as [[st1 lg1]|] eqn:Hs; [|discriminate].
    destruct (Inv_call_ext _ _ _ _ _ _ _ _ HI Hn Hs) as [HI1 Hl1].
    destruct (IH _ _ _ _ _ _ _ _ HI1 Hd) as (HI' & Hc & Hk).
    split; [exact HI'|]. split; [lia|]. right.
    destruct Hk as [->|Hk]; [|exact Hk].
    simpl in Hd. inversion Hd; subst. lia.
Qed.

Lemma ext_loop_inv m fi ce st lg ce' st' lg' :
  Inv m fi ce st lg -> ext_loop ce st lg = Some (ce', st', lg') ->
  Inv ce' fi ce' st' lg'.
Proof.
  unfold ext_loop. intros HI Hl.
  destruct (length (ExternalDefinitions st) <? ce) eqn:Hlt; [discriminate|].
  apply Nat.ltb_ge in Hlt.
  destruct (drain_ext_inv _ _ _ _ _ _ _ _ _ HI Hl) as (HI' & Hc & Hk).
  apply (Inv_raise m); [exact HI'|].
  destruct Hk as [Hk|Hk]; [|exact Hk].
  rewrite Hk in Hl. simpl in Hl. inversion Hl; subst. lia.
Qed.

Lemma drain_funcs_inv k : forall m fi ce st lg fi' st' lg',
  Inv m fi ce st lg -> drain_funcs k fi st lg = Some (fi', st', lg') ->
  Inv m fi' ce st' lg'.
Proof.
  induction k as [|k IH]; intros m fi ce st lg fi' st' lg' HI Hd; simpl in Hd.
  - now inversion Hd; subst.
  - destruct (nth_error (definedFunctions st) fi) as [f|] eqn:Hn; [|discriminate].
    eapply IH; [|exact Hd]. now apply Inv_call_body.
Qed.

Lemma func_loop_inv m fi ce st lg fi' st' lg' :
  Inv m fi ce st lg -> func_loop fi st lg = Some (fi', st', lg') ->
  Inv m fi' ce st' lg'.
Proof.
  unfold func_loop. intros HI Hl.
  destruct (length (definedFunctions st) <? fi); [discriminate|].
  eapply drain_funcs_inv; eauto.
Qed.

Lemma captures_loop_inv k : forall i m fi ce st lg st' lg',
  Inv m fi ce st lg -> captures_loop k i st lg = Some (st', lg') ->
  Inv m fi ce st' lg'.
Proof.
  induction k as [|k IH]; intros i m fi ce st lg st' lg' HI Hd; simpl in Hd.
  - now inversion Hd; subst.
  - destruct (nth_error (definedFunctions st) (i - 1)) as [f|]; [|discriminate].
    eapply IH; [|exact Hd]. now apply Inv_call_captures.
Qed.

Lemma drain_validated_inv fuel : forall m fi ce st lg st' lg',
  Inv m fi ce st lg -> drain_validated fuel st lg = Some (st', lg') ->
  Inv m fi ce st' lg' /\ ValidatedTypes st' = [].
Proof.
  induction fuel as [|fuel IH]; intros m fi ce st lg st' lg' HI Hd; simpl in Hd;
    destruct (ValidatedTypes st) as [|n rest] eqn:Hv.
  - inversion Hd; subst. auto.
  - discriminate.
  - inversion Hd; subst. auto.
  - eapply IH; [|exact Hd]. now apply Inv_pop.
Qed.

Lemma iteration_inv fuel m fi ce st lg fi' ce' st' lg' :
  Inv m fi ce st lg -> iteration fuel fi ce st lg = Some (fi', ce', st', lg') ->
  Inv ce' fi' ce' st' lg' /\ ValidatedTypes st' = []
  /\ implicitlyDefinedFunctions st' = [].
Proof.
  unfold iteration. intros HI Hit.
  destruct (ext_loop ce st lg) as [[[ce1 st1] lg1]|] eqn:H1; [|discriminate].
  destruct (func_loop fi st1 lg1) as [[[fi2 st2] lg2]|] eqn:H2; [|discriminate].
  destruct (captures_loop (fi2 - fi) fi2 st2 lg2) as [[st3 lg3]|] eqn:H3; [|discriminate].
  destruct (drain_validated fuel st3 lg3) as [[st4 lg4]|] eqn:H4; [|discriminate].
  inversion Hit; subst.
  pose proof (ext_loop_inv _ _ _ _ _ _ _ _ HI H1) as HI1.
  pose proof (func_loop_inv _ _ _ _ _ _ _ _ HI1 H2) as HI2.
  pose proof (captures_loop_inv _ _ _ _ _ _ _ _ _ HI2 H3) as HI3.
  destruct (drain_validated_inv _ _ _ _ _ _ _ _ HI3 H4) as [HI4 Hv].
  split; [now apply Inv_move|]. simpl. auto.
Qed.

Lemma sched_inv fuel : forall m fi ce st lg fi' ce' st' lg',
  Inv m fi ce st lg -> sched fuel fi ce st lg = Some (fi', ce', st', lg') ->
  Inv ce' fi' ce' st' lg' /\ ValidatedTypes st' = []
  /\ implicitlyDefinedFunctions st' = []
  /\ length (definedFunctions st') <= fi'
  /\ length (ExternalDefinitions st') <= ce'.
Proof.
  induction fuel as [|fuel IH]; intros m fi ce st lg fi' ce' st' lg' HI Hs;
    simpl in Hs; [discriminate|].
  destruct (iteration (S fuel) fi ce st lg) as [[[[fi1 ce1] st1] lg1]|] eqn:Hit;
    [|discriminate].
  destruct (iteration_inv _ _ _ _ _ _ _ _ _ _ HI Hit) as (HI1 & Hv & Hi).
  destruct ((fi1 <? length (definedFunctions st1))
            || (ce1 <? length (ExternalDefinitions st1))) eqn:Hc.
  - eapply IH; eauto.
  - inversion Hs; subst. apply orb_false_iff in Hc as [Hc1 Hc2].
    apply Nat.ltb_ge in Hc1, Hc2. auto.
Qed.

(** *** Order of body checks and capture computations within one iteration *)

Lemma drain_funcs_trace k : forall fi st lg fi' st' lg',
  fi + k <= length (definedFunctions st) ->
  drain_funcs k fi st lg = Some (fi', st', lg') ->
  fi' = fi + k
  /\ trace lg' = trace lg ++ map EvBody (firstn k (skipn fi (definedFunctions st)))
  /\ exists g, definedFunctions st' = definedFunctions st ++ g.
Proof.
  induction k as [|k IH]; intros fi st lg fi' st' lg' Hk Hd; simpl in Hd.
  - inversion Hd; subst. rewrite Nat.add_0_r, app_nil_r. simpl.
    split; [reflexivity|]. split; [reflexivity|]. exists []. now rewrite app_nil_r.
  - destruct (nth_error (definedFunctions st) fi) as [f|] eqn:Hn; [|discriminate].
    edestruct (IH (S fi)) as (Hc & Ht & g' & Hg); [|exact Hd|].
    { simpl. rewrite length_app. lia. }
    split; [lia|]. split.
    + assert (Hs : skipn fi (definedFunctions st) = f :: skipn (S fi) (definedFunctions st)).
      { clear -Hn. revert fi Hn. induction (definedFunctions st) as [|x l IHl];
          intros [|fi] Hn; simpl in *; try discriminate.
        - now inversion Hn.
        - now apply IHl. }
      rewrite Ht. cbn [trace log_event definedFunctions apply_growth].
      rewrite firstn_skipn_app by lia. rewrite Hs. cbn [firstn map].
      now rewrite <- app_assoc.
    + simpl in Hg. exists (gr_funcs (typeCheckAbstractFunctionBody f st) ++ g').
      now rewrite Hg, app_assoc.
Qed.

Lemma captures_loop_trace k : forall i st lg st' lg',
  k <= i -> i <= length (definedFunctions st) ->
  captures_loop k i st lg = Some (st', lg') ->
  trace lg' = trace lg ++ map EvCaptures (rev (firstn k (skipn (i - k) (definedFunctions st)))).
Proof.
  induction k as [|k IH]; intros i st lg st' lg' Hki Hi Hd; simpl in Hd.
  - inversion Hd; subst. simpl. now rewrite app_nil_r.
  - destruct (nth_error (definedFunctions st) (i - 1)) as [f|] eqn:Hn; [|discriminate].
    apply IH in Hd; [|lia|cbn [definedFunctions apply_growth]; rewrite length_app; lia].
    rewrite Hd. cbn [trace log_event definedFunctions apply_growth].
    rewrite <- app_assoc. f_equal.
    rewrite firstn_skipn_app by lia.
    replace (i - S k) with (i - 1 - k) by lia.
    assert (Hs : firstn (S k) (skipn (i - 1 - k) (definedFunctions st))
                 = firstn k (skipn (i - 1 - k) (definedFunctions st)) ++ [f]).
    { rewrite <- (app_nil_r (skipn (i - 1 - k) (definedFunctions st))) at 1.
      rewrite (firstn_snoc_nth _ [] k f); [reflexivity|].
      rewrite nth_error_skipn. now replace (i - 1 - k + k) with (i - 1) by lia. }
    rewrite Hs, rev_app_distr. reflexivity.
Qed.

(** In one iteration, the bodies of the functions of the batch [prev, cur)
    (the functions present when the drain started) are checked in index
    order, and then their captures are computed in reverse index order. *)
Lemma iteration_batch_order fi st1 lg1 fi2 st2 lg2 st3 lg3 :
  func_loop fi st1 lg1 = Some (fi2, st2, lg2) ->
  captures_loop (fi2 - fi) fi2 st2 lg2 = Some (st3, lg3) ->
  fi2 = length (definedFunctions st1)
  /\ trace lg3 = trace lg1
                 ++ map EvBody (firstn (fi2 - fi) (skipn fi (definedFunctions st1)))
                 ++ map EvCaptures (rev (firstn (fi2 - fi) (skipn fi (definedFunctions st1)))).
Proof.
  unfold func_loop. intros Hf Hc.
  destruct (length (definedFunctions st1) <? fi) eqn:Hlt; [discriminate|].
  apply Nat.ltb_ge in Hlt.
  apply drain_funcs_trace in Hf as (Hfi & Ht & g & Hg); [|lia].
  assert (Hk : fi2 - fi = length (definedFunctions st1) - fi) by lia.
  split; [lia|].
  apply captures_loop_trace in Hc; [|lia|rewrite Hg, length_app; lia].
  rewrite Hc.
  rewrite Ht, <- app_assoc. f_equal. f_equal; [now rewrite Hk|].
  rewrite Hk. replace (fi2 - (length (definedFunctions st1) - fi)) with fi by lia.
  rewrite Hg, firstn_skipn_app by lia. reflexivity.
Qed.

(** *** Capture computations over the whole run *)

Lemma captured_app l1 l2 : captured (l1 ++ l2) = captured l1 ++ captured l2.
Proof. unfold captured. apply flat_map_app. Qed.

Lemma captured_bodies l : captured (map EvBody l) = [].
Proof. induction l; simpl; auto. Qed.

Lemma captured_captures l : captured (map EvCaptures l) = l.
Proof. induction l; simpl; f_equal; auto. Qed.

(** A phase that computes no captures and only appends to
    [definedFunctions]. *)
Definition quiet (st : State) (lg : Log) (st' : State) (lg' : Log) : Prop :=
  captured (trace lg') = captured (trace lg)
  /\ exists g, definedFunctions st' = definedFunctions st ++ g.

Lemma quiet_call st lg e g :
  ev_captures e = [] -> quiet st lg (apply_growth g st) (log_event e g lg).
Proof.
  intros He. split.
  - simpl. rewrite captured_app. simpl. rewrite He. now rewrite !app_nil_r.
  - exists (gr_funcs g). reflexivity.
Qed.

Lemma quiet_trans st1 lg1 st2 lg2 st3 lg3 :
  quiet st1 lg1 st2 lg2 -> quiet st2 lg2 st3 lg3 -> quiet st1 lg1 st3 lg3.
Proof.
  intros [H1 [g1 G1]] [H2 [g2 G2]]. split; [congruence|].
  exists (g1 ++ g2). now rewrite G2, G1, app_assoc.
Qed.

Lemma quiet_refl st lg : quiet st lg st lg.
Proof. split; [reflexivity|]. exists []. now rewrite app_nil_r. Qed.

Lemma drain_ext_quiet k : forall cur st lg cur' st' lg',
  drain_ext k cur st lg = Some (cur', st', lg') -> quiet st lg st' lg'.
Proof.
  induction k as [|k IH]; intros cur st lg cur' st' lg' Hd; simpl in Hd.
  - inversion Hd; subst. apply quiet_refl.
  - destruct (nth_error (ExternalDefinitions st) cur) as [d|]; [|discriminate].
    destruct (ext_step d st lg) as [[st1 lg1]|] eqn:He; [|discriminate].
    apply quiet_trans with st1 lg1; [|eapply IH; eauto].
    destruct d; simpl in He; inversion He; subst; now apply quiet_call.
Qed.

Lemma drain_validated_quiet fuel : forall st lg st' lg',
  drain_validated fuel st lg = Some (st', lg') -> quiet st lg st' lg'.
Proof.
  induction fuel as [|fuel IH]; intros st lg st' lg' Hd; simpl in Hd;
    destruct (ValidatedTypes st) as [|n rest]; try discriminate.
  - inversion Hd; subst. apply quiet_refl.
  - inversion Hd; subst. apply quiet_refl.
  - eapply quiet_trans; [|eapply IH; exact Hd].
    apply (quiet_call st lg (EvFirstPass n)). reflexivity.
Qed.

Lemma captures_loop_grow k : forall i st lg st' lg',
  captures_loop k i st lg = Some (st', lg') ->
  exists g, definedFunctions st' = definedFunctions st ++ g.
Proof.
  induction k as [|k IH]; intros i st lg st' lg' Hc; simpl in Hc.
  - inversion Hc; subst. exists []. now rewrite app_nil_r.
  - destruct (nth_error (definedFunctions st) (i - 1)) as [f|]; [|discriminate].
    destruct (IH _ _ _ _ _ Hc) as [g Hg]. simpl in Hg.
    exists (gr_funcs (computeCaptures f st) ++ g). now rewrite Hg, app_assoc.
Qed.

Lemma iteration_captures fuel fi cur st lg fi' cur' st' lg' :
  Permutation (captured (trace lg)) (firstn fi (definedFunctions st)) ->
  fi <= length (definedFunctions st) ->
  iteration fuel fi cur st lg = Some (fi', cur', st', lg') ->
  Permutation (captured (trace lg')) (firstn fi' (definedFunctions st'))
  /\ fi' <= length (definedFunctions st').
Proof.
  intros Hp Hfi Hit. unfold iteration in Hit.
  destruct (ext_loop cur st lg) as [[[cur1 st1] lg1]|] eqn:He; [|discriminate].
  destruct (func_loop fi st1 lg1) as [[[fi2 st2] lg2]|] eqn:Hf; [|discriminate].
  destruct (captures_loop (fi2 - fi) fi2 st2 lg2) as [[st3 lg3]|] eqn:Hc; [|discriminate].
  destruct (drain_validated fuel st3 lg3) as [[st4 lg4]|] eqn:Hv; [|discriminate].
  inversion Hit; subst fi' cur' st' lg'; clear Hit.
  assert (Hq1 : quiet st lg st1 lg1).
  { unfold ext_loop in He.
    destruct (length (ExternalDefinitions st) <? cur); [discriminate|].
    eapply drain_ext_quiet; exact He. }
  destruct Hq1 as [Hc1 [g1 Hg1]].
  destruct (iteration_batch_order _ _ _ _ _ _ _ _ Hf Hc) as [Hfi2 Ht3].
  assert (Hg2 : exists g, definedFunctions st2 = definedFunctions st1 ++ g).
  { unfold func_loop in Hf.
    destruct (length (definedFunctions st1) <? fi) eqn:Hlt; [discriminate|].
    apply Nat.ltb_ge in Hlt.
    apply drain_funcs_trace in Hf as (_ & _ & g & Hg); [now exists g|lia]. }
  destruct Hg2 as [g2 Hg2].
  destruct (captures_loop_grow _ _ _ _ _ _ Hc) as [g3 Hg3].
  destruct (drain_validated_quiet _ _ _ _ _ Hv) as [Hc4 [g4 Hg4]].
  assert (Hd : definedFunctions (move_implicit st4)
               = definedFunctions st1 ++ (g2 ++ g3 ++ g4 ++ implicitlyDefinedFunctions st4)).
  { simpl. rewrite Hg4, Hg3, Hg2. now rewrite !app_assoc. }
  assert (Hfl : fi <= length (definedFunctions st1)) by (rewrite Hg1, length_app; lia).
  rewrite Hd. split; [|rewrite length_app; lia].
  rewrite firstn_app, Hfi2, Nat.sub_diag, firstn_all. simpl. rewrite app_nil_r.
  simpl in Hc4. rewrite Hc4, Ht3, !captured_app, captured_bodies, captured_captures.
  simpl. rewrite Hc1. subst fi2.
  replace (firstn (length (definedFunctions st1) - fi) (skipn fi (definedFunctions st1)))
    with (skipn fi (definedFunctions st1))
    by (rewrite firstn_all2; [reflexivity|rewrite length_skipn; lia]).
  transitivity (firstn fi (definedFunctions st1) ++ skipn fi (definedFunctions st1));
    [|now rewrite firstn_skipn].
  assert (Hpre : firstn fi (definedFunctions st) = firstn fi (definedFunctions st1)).
  { rewrite Hg1, firstn_app. replace (fi - length (definedFunctions st)) with 0 by lia.
    simpl. now rewrite app_nil_r. }
  rewrite <- Hpre. apply Permutation_app; [exact Hp|].
  apply Permutation_sym, Permutation_rev.
Qed.

Lemma sched_captures fuel : forall fi cur st lg fi' cur' st' lg',
  Permutation (captured (trace lg)) (firstn fi (definedFunctions st)) ->
  fi <= length (definedFunctions st) ->
  sched fuel fi cur st lg = Some (fi', cur', st', lg') ->
  Permutation (captured (trace lg')) (firstn fi' (definedFunctions st'))
  /\ fi' <= length (definedFunctions st').
Proof.
  induction fuel as [|fuel IH]; intros fi cur st lg fi' cur' st' lg' Hp Hfi Hs;
    simpl in Hs; [discriminate|].
  destruct (iteration (S fuel) fi cur st lg) as [[[[fi1 cur1] st1] lg1]|] eqn:Hit;
    [|discriminate].
  destruct (iteration_captures _ _ _ _ _ _ _ _ _ Hp Hfi Hit) as [Hp1 Hfi1].
  destruct ((fi1 <? length (definedFunctions st1))
            || (cur1 <? length (ExternalDefinitions st1))).
  - eapply IH; eauto.
  - inversion Hs; subst. auto.
Qed.

(** *** Unknown external definitions *)



End Invariant.

(** Claim C1.  When the scheduler loop returns, the function cursor equals
    the length of [definedFunctions], the external-definition cursor equals
    the length of [ExternalDefinitions] (and is stored back into
    [LastCheckedExternalDefinition]), [ValidatedTypes] and
    [implicitlyDefinedFunctions] are empty; and every item ever appended is
    processed exactly once: the bodies checked are exactly
    [definedFunctions], in order, which is a permutation of the initial
    functions, the initially staged ones and everything appended to either
    list; the externals handled are exactly those from the initial cursor
    on, in order; the nominal types validated are a permutation of the
    initial stack and everything pushed on it. *)
Theorem typeCheckFunctionsAndExternalDecls_fixed_point
  (typeCheckAbstractFunctionBody handleExternalDecl computeCaptures typeCheckDecl
     : nat -> State -> Growth)
  (fuel : nat) (st0 : State) (fi ce : nat) (st : State) (lg : Log) :
  sched typeCheckAbstractFunctionBody handleExternalDecl computeCaptures typeCheckDecl
    fuel 0 (LastCheckedExternalDefinition st0) st0 empty_log = Some (fi, ce, st, lg) ->
  fi = length (definedFunctions st)
  /\ ce = length (ExternalDefinitions st)
  /\ ValidatedTypes st = []
  /\ implicitlyDefinedFunctions st = []
  /\ typeCheckFunctionsAndExternalDecls typeCheckAbstractFunctionBody handleExternalDecl
       computeCaptures typeCheckDecl fuel st0
     = Some (mkState (ExternalDefinitions st) ce (definedFunctions st) [] [], lg)
  /\ ExternalDefinitions st = ExternalDefinitions st0 ++ lg_ext lg
  /\ bodies (trace lg) = definedFunctions st
  /\ Permutation (definedFunctions st)
       (definedFunctions st0 ++ implicitlyDefinedFunctions st0 ++ lg_funcs lg ++ lg_impl lg)
  /\ ext_processed (trace lg)
     = skipn (LastCheckedExternalDefinition st0) (ExternalDefinitions st)
  /\ Permutation (first_passes (trace lg)) (ValidatedTypes st0 ++ lg_valid lg).
Proof.
  intros Hs.
  destruct (sched_inv _ _ _ _ st0 _ _ _ _ _ _ _ _ _ _ (Inv_init st0) Hs)
    as ([H1 H2 H3 H4 H5 H6 H7 H8 H9] & Hv & Hi & Hf & Hc).
  assert (Hfi : fi = length (definedFunctions st)) by lia.
  assert (Hce : ce = length (ExternalDefinitions st)) by lia.
  split; [exact Hfi|]. split; [exact Hce|].
  split; [exact Hv|]. split; [exact Hi|].
  split.
  { unfold typeCheckFunctionsAndExternalDecls. rewrite Hs. now rewrite Hv, Hi. }
  split; [exact H1|].
  split. { rewrite H4, Hfi. apply firstn_all. }
  split. { rewrite Hi, app_nil_r in H2. exact H2. }
  split.
  { rewrite H7. apply firstn_all2. rewrite length_skipn. lia. }
  rewrite Hv, app_nil_r in H8. exact H8.
Qed.

(** A run where a body check appends a nested function, an external
    nominal type and a type to validate, whose handling stages an implicit
    function, and whose validation pushes another type. *)
Lemma typeCheckFunctionsAndExternalDecls_fixed_point_witness :
  sched SchedulerExamples.fx_body SchedulerExamples.fx_ext
    SchedulerExamples.fx_captures SchedulerExamples.fx_decl 10 0
    (LastCheckedExternalDefinition SchedulerExamples.fx_state)
    SchedulerExamples.fx_state empty_log
  = Some (3, 1, mkState [DNominal 5] 0 [1; 2; 3] [] [],
          mkLog [EvBody 1; EvCaptures 1; EvFirstPass 7; EvFirstPass 8;
                 EvExtHandle 5; EvBody 2; EvCaptures 2; EvBody 3; EvCaptures 3]
                [DNominal 5] [2] [3] [7; 8])
  /\ bodies [EvBody 1; EvCaptures 1; EvFirstPass 7; EvFirstPass 8;
             EvExtHandle 5; EvBody 2; EvCaptures 2; EvBody 3; EvCaptures 3]
     = [1; 2; 3].
Proof.
  assert (H : sched SchedulerExamples.fx_body SchedulerExamples.fx_ext
    SchedulerExamples.fx_captures SchedulerExamples.fx_decl 10 0
    (LastCheckedExternalDefinition SchedulerExamples.fx_state)
    SchedulerExamples.fx_state empty_log
  = Some (3, 1, mkState [DNominal 5] 0 [1; 2; 3] [] [],
          mkLog [EvBody 1; EvCaptures 1; EvFirstPass 7; EvFirstPass 8;
                 EvExtHandle 5; EvBody 2; EvCaptures 2; EvBody 3; EvCaptures 3]
                [DNominal 5] [2] [3] [7; 8])) by reflexivity.
  split; [exact H|].
  exact (proj1 (proj2 (proj2 (proj2 (proj2 (proj2 (proj2
           (typeCheckFunctionsAndExternalDecls_fixed_point _ _ _ _ _ _ _ _ _ _ H)))))))).
Defined.

(** Claim C2 (the code misses it).  Function 1 contains function 2, which
    contains function 3; each nested function is appended to
    [definedFunctions] while its enclosing body is checked.  Because the
    drain of [definedFunctions] stops at the length it had when the drain
    started, each nested function is checked in a later iteration, and the
    captures are computed outer first: 1, then 2, then 3, whereas the claim
    (and the comment in the loop) has the nested function's captures
    computed before the enclosing one's. *)
Theorem captures_nested_outer_first :
  sched SchedulerExamples.nest_body SchedulerExamples.nest_other
    SchedulerExamples.nest_other SchedulerExamples.nest_other 10 0 0
    SchedulerExamples.nest_state empty_log
  = Some (3, 0, mkState [] 0 [1; 2; 3] [] [],
          mkLog [EvBody 1; EvCaptures 1; EvBody 2; EvCaptures 2; EvBody 3; EvCaptures 3]
                [] [2; 3] [] [])
  /\ captured [EvBody 1; EvCaptures 1; EvBody 2; EvCaptures 2; EvBody 3; EvCaptures 3]
     = [1; 2; 3].
Proof. split; reflexivity. Qed.

(** Every function whose body the loop checks has its captures computed
    exactly once: when [typeCheckFunctionsAndExternalDecls] returns, the
    functions passed to [computeCaptures] are a permutation of the final
    [definedFunctions]. *)
Theorem typeCheckFunctionsAndExternalDecls_captures_once
  (typeCheckAbstractFunctionBody handleExternalDecl computeCaptures typeCheckDecl
     : nat -> State -> Growth)
  (fuel : nat) (st0 st : State) (lg : Log) :
  typeCheckFunctionsAndExternalDecls typeCheckAbstractFunctionBody handleExternalDecl
    computeCaptures typeCheckDecl fuel st0 = Some (st, lg) ->
  Permutation (captured (trace lg)) (definedFunctions st).
Proof.
  unfold typeCheckFunctionsAndExternalDecls. intros H.
  destruct (sched typeCheckAbstractFunctionBody handleExternalDecl computeCaptures
              typeCheckDecl fuel 0 (LastCheckedExternalDefinition st0) st0 empty_log)
    as [[[[fi ce] st1] lg1]|] eqn:Hs; [|discriminate].
  inversion H; subst; simpl.
  destruct (sched_inv _ _ _ _ st0 _ _ _ _ _ _ _ _ _ _ (Inv_init st0) Hs)
    as (HI & _ & _ & Hf & _).
  pose proof (inv_fi _ _ _ _ _ _ HI) as Hle.
  assert (Hp : Permutation (captured (trace lg)) (firstn fi (definedFunctions st1)))
    by exact (proj1 (sched_captures _ _ _ _ st0 fuel 0 _ st0 empty_log fi ce st1 lg
                       (Permutation_refl []) (Nat.le_0_l _) Hs)).
  replace fi with (length (definedFunctions st1)) in Hp by lia.
  now rewrite firstn_all in Hp.
Qed.

(** The run of the fixed-point example computes the captures of functions
    1, 2 and 3. *)
Lemma typeCheckFunctionsAndExternalDecls_captures_once_witness :
  typeCheckFunctionsAndExternalDecls SchedulerExamples.fx_body SchedulerExamples.fx_ext
    SchedulerExamples.fx_captures SchedulerExamples.fx_decl 10 SchedulerExamples.fx_state
  = Some (mkState [DNominal 5] 1 [1; 2; 3] [] [],
          mkLog [EvBody 1; EvCaptures 1; EvFirstPass 7; EvFirstPass 8;
                 EvExtHandle 5; EvBody 2; EvCaptures 2; EvBody 3; EvCaptures 3]
                [DNominal 5] [2] [3] [7; 8])
  /\ Permutation
       (captured [EvBody 1; EvCaptures 1; EvFirstPass 7; EvFirstPass 8;
                  EvExtHandle 5; EvBody 2; EvCaptures 2; EvBody 3; EvCaptures 3])
       [1; 2; 3].
Proof.
  assert (H : typeCheckFunctionsAndExternalDecls SchedulerExamples.fx_body
    SchedulerExamples.fx_ext SchedulerExamples.fx_captures SchedulerExamples.fx_decl 10
    SchedulerExamples.fx_state
  = Some (mkState [DNominal 5] 1 [1; 2; 3] [] [],
          mkLog [EvBody 1; EvCaptures 1; EvFirstPass 7; EvFirstPass 8;
                 EvExtHandle 5; EvBody 2; EvCaptures 2; EvBody 3; EvCaptures 3]
                [DNominal 5] [2] [3] [7; 8])) by reflexivity.
  split; [exact H|].
  exact (typeCheckFunctionsAndExternalDecls_captures_once _ _ _ _ _ _ _ _ H).
Defined.



(** With no function to check, none staged, no type to validate and every
    external definition already handled, the loop runs one iteration that
    invokes no collaborator and returns the state unchanged. *)
Theorem typeCheckFunctionsAndExternalDecls_idle
  (typeCheckAbstractFunctionBody handleExternalDecl computeCaptures typeCheckDecl
     : nat -> State -> Growth)
  (fuel : nat) (st : State) :
  definedFunctions st = [] -> implicitlyDefinedFunctions st = [] ->
  ValidatedTypes st = [] ->
  LastCheckedExternalDefinition st = length (ExternalDefinitions st) ->
  typeCheckFunctionsAndExternalDecls typeCheckAbstractFunctionBody handleExternalDecl
    computeCaptures typeCheckDecl (S fuel) st = Some (st, empty_log).
Proof.
  intros Hd Hi Hv Hc. destruct st as [ext lc d i v]; simpl in *; subst.
  unfold typeCheckFunctionsAndExternalDecls; cbn [sched]. unfold iteration, ext_loop.
  cbn [LastCheckedExternalDefinition ExternalDefinitions]. cbv beta zeta. rewrite Nat.ltb_irrefl, Nat.sub_diag. cbn.
  change (match length ext with 0 => false | S m' => length ext <=? m' end)
    with (length ext <? length ext).
  rewrite Nat.ltb_irrefl. reflexivity.
Qed.

(** Two external nominal types, both already handled. *)
Lemma typeCheckFunctionsAndExternalDecls_idle_witness :
  typeCheckFunctionsAndExternalDecls SchedulerExamples.fx_body SchedulerExamples.fx_ext
    SchedulerExamples.fx_captures SchedulerExamples.fx_decl 1
    (mkState [DNominal 5; DNominal 7] 2 [] [] [])
  = Some (mkState [DNominal 5; DNominal 7] 2 [] [] [], empty_log).
Proof. apply typeCheckFunctionsAndExternalDecls_idle; reflexivity. Defined.

End SchedulerFacts.

(** ** [getStdlibModule] and [lookupBoolType]: proofs *)
Module StdlibCacheFacts.
Import StdlibCache.

Section Facts.

Variable ctxStdlibModule : option nat.
Variable getParentModule : nat -> nat.
Variable boolLookup : nat -> LookupResult.
Variable getDeclaredType : nat -> nat.

Local Abbreviation consistent := (StdlibCache.consistent ctxStdlibModule boolLookup getDeclaredType).
Local Abbreviation getStdlibModule := (StdlibCache.getStdlibModule ctxStdlibModule getParentModule).
Local Abbreviation lookupBoolType :=
  (StdlibCache.lookupBoolType ctxStdlibModule getParentModule boolLookup getDeclaredType).
Local Abbreviation run :=
  (StdlibCache.run ctxStdlibModule getParentModule boolLookup getDeclaredType).

Lemma consistent_init tc0 :
  StdlibModule tc0 = None -> boolType tc0 = None -> consistent tc0 tc0.
Proof.
  intros Hs Hb. constructor; intros; try congruence; auto.
Qed.

Lemma extends_refl tc : extends tc tc.
Proof. split; auto. Qed.

Lemma extends_trans tc1 tc2 tc3 : extends tc1 tc2 -> extends tc2 tc3 -> extends tc1 tc3.
Proof. intros [H1 H2] [H3 H4]. split; auto. Qed.

Lemma getStdlibModule_step tc0 tc dc m tc' :
  consistent tc0 tc -> getStdlibModule dc tc = (m, tc') ->
  consistent tc0 tc' /\ StdlibModule tc' = Some m /\ extends tc tc'
  /\ boolType tc' = boolType tc /\ lookups tc' = lookups tc /\ diags tc' = diags tc
  /\ (StdlibModule tc = None ->
      m = match ctxStdlibModule with Some m => m | None => getParentModule dc end).
Proof.
  intros HC H. pose proof HC as [Ha Hb Hc Hd]. unfold StdlibCache.getStdlibModule in H.
  destruct (StdlibModule tc) as [m1|] eqn:Hs.
  - inversion H; subst. split; [exact HC|].
    split; [exact Hs|]. split; [apply extends_refl|]. repeat split; congruence.
  - inversion H; subst; clear H. destruct (Ha eq_refl) as [Hr Hbt].
    split.
    + constructor; simpl.
      * discriminate.
      * intros m' Hm'. inversion Hm'; subst. rewrite Hr. split; [reflexivity|].
        intros m0 Hc0. now rewrite Hc0.
      * exact Hc.
      * intros t Ht. congruence.
    + split; [reflexivity|]. split; [split; simpl; congruence|].
      repeat split; reflexivity.
Qed.

Lemma lookupBoolType_step tc0 tc dc t tc' :
  consistent tc0 tc -> lookupBoolType dc tc = (t, tc') ->
  consistent tc0 tc' /\ boolType tc' = Some t /\ StdlibModule tc' <> None
  /\ extends tc tc'
  /\ (StdlibModule tc = None ->
      StdlibModule tc' = Some (match ctxStdlibModule with Some m => m
                               | None => getParentModule dc end)).
Proof.
  intros HC H. pose proof HC as [Ha Hb Hc Hd].
  unfold StdlibCache.lookupBoolType in H.
  destruct (boolType tc) as [t1|] eqn:Hbt.
  - inversion H; subst. destruct (Hd t eq_refl) as (m & Hm & _).
    split; [exact HC|]. split; [exact Hbt|]. split; [congruence|].
    split; [apply extends_refl|]. congruence.
  - unfold StdlibCache.computeBoolType in H.
    destruct (StdlibCache.getStdlibModule ctxStdlibModule getParentModule dc tc)
      as [m tc1] eqn:Hg.
    destruct (getStdlibModule_step _ _ _ _ _ HC Hg)
      as ([Ha1 Hb1 Hc1 Hd1] & Hs1 & [He1 _] & Hbt1 & Hl1 & Hd1' & Hch).
    destruct (Hc eq_refl) as [Hl0 Hdg0].
    destruct (Hb1 m Hs1) as [Hr1 Hctx1].
    assert (Hfin : forall t2 dg,
      dg = diags tc0 ++ match t2 with None => [bool_type_broken] | Some _ => [] end ->
      t2 = bool_of getDeclaredType (boolLookup m) ->
      consistent tc0 (mkTC (StdlibModule tc1) (Some t2) (recorded tc1)
                           (lookups tc1 ++ [m]) dg)).
    { intros t2 dg Hdg Ht2. constructor; simpl.
      - rewrite Hs1. discriminate.
      - intros m' Hm'. apply Hb1. exact Hm'.
      - discriminate.
      - intros t' Ht'. inversion Ht'; subst. exists m.
        split; [exact Hs1|]. split; [now rewrite Hl1, Hl0|]. split; reflexivity. }
    destruct (boolLookup m) as [|[tyDecl|]] eqn:Hl;
      inversion H; subst; clear H;
      (split; [apply Hfin; unfold StdlibCache.diagnose, bool_of; simpl;
               rewrite ?Hl; try rewrite Hd1', Hdg0; rewrite ?app_nil_r; reflexivity|]);
      simpl; (split; [reflexivity|]); rewrite Hs1;
      (split; [discriminate|]);
      (split; [split; simpl; [intros m' Hm'; rewrite <- Hs1; now apply He1|congruence]|]);
      intros Hn; now rewrite <- (Hch Hn).
Qed.

Lemma run_consistent tc0 rs : forall tc,
  consistent tc0 tc ->
  let '(ans, tc') := run rs tc in
  consistent tc0 tc' /\ extends tc tc'
  /\ (forall m, In (AnsModule m) ans -> StdlibModule tc' = Some m)
  /\ (forall t, In (AnsBoolType t) ans -> boolType tc' = Some t)
  /\ ((forall dc, ~ In (ReqBoolType dc) rs) -> boolType tc' = boolType tc).
Proof.
  induction rs as [|r rs IH]; intros tc HC; simpl.
  - split; [exact HC|]. split; [apply extends_refl|].
    split; [intros m []|]. split; [intros t []|]. auto.
  - destruct r as [dc|dc].
    + destruct (getStdlibModule dc tc) as [m tc1] eqn:Hg.
      destruct (getStdlibModule_step _ _ _ _ _ HC Hg)
        as (HC1 & Hs1 & He1 & Hbt1 & _).
      specialize (IH tc1 HC1).
      destruct (run rs tc1) as [ans tc2].
      destruct IH as (HC2 & He2 & Hm2 & Hb2 & Hn2).
      split; [exact HC2|]. split; [eapply extends_trans; eauto|].
      split; [intros m' [Hm'|Hm']; [inversion Hm'; subst; now apply He2|auto]|].
      split; [intros t [Ht|Ht]; [discriminate|auto]|].
      intros Hno. rewrite <- Hbt1. apply Hn2. intros dc' Hin. apply (Hno dc'). now right.
    + destruct (lookupBoolType dc tc) as [t tc1] eqn:Hg.
      destruct (lookupBoolType_step _ _ _ _ _ HC Hg) as (HC1 & Hb1 & _ & He1 & _).
      specialize (IH tc1 HC1).
      destruct (run rs tc1) as [ans tc2].
      destruct IH as (HC2 & He2 & Hm2 & Hb2 & Hn2).
      split; [exact HC2|]. split; [eapply extends_trans; eauto|].
      split; [intros m' [Hm'|Hm']; [discriminate|auto]|].
      split; [intros t' [Ht|Ht]; [inversion Ht; subst; now apply He2|auto]|].
      intros Hno. exfalso. apply (Hno dc). now left.
Qed.

Lemma run_first tc rs r :
  StdlibModule tc = None -> boolType tc = None ->
  StdlibModule (snd (run (r :: rs) tc))
  = Some (match ctxStdlibModule with Some m => m | None => getParentModule (req_dc r) end).
Proof.
  intros Hs Hb. pose proof (consistent_init tc Hs Hb) as HC. simpl.
  destruct r as [dc|dc]; simpl.
  - destruct (getStdlibModule dc tc) as [m tc1] eqn:Hg.
    destruct (getStdlibModule_step _ _ _ _ _ HC Hg) as (HC1 & Hs1 & _ & _ & _ & _ & Hch).
    pose proof (run_consistent tc rs tc1 HC1) as IH.
    destruct (run rs tc1) as [ans tc2]. destruct IH as (_ & [He _] & _).
    simpl. rewrite <- (Hch Hs). now apply He.
  - destruct (lookupBoolType dc tc) as [t tc1] eqn:Hg.
    destruct (lookupBoolType_step _ _ _ _ _ HC Hg) as (HC1 & _ & _ & _ & Hch).
    pose proof (run_consistent tc rs tc1 HC1) as IH.
    destruct (run rs tc1) as [ans tc2]. destruct IH as (_ & [He _] & _).
    simpl. apply He. now apply Hch.
Qed.

End Facts.

(** Over any sequence of [getStdlibModule] and [lookupBoolType] calls on a
    checker whose two caches are empty: every call answers with the same
    module, computed by the first call (the context's standard library if
    there is one, otherwise the parent module of the first caller's
    context), and [recordKnownProtocols] runs exactly once, on it; every
    [lookupBoolType] answers with the same type, from a single lookup of
    [Bool] in that module, with [bool_type_broken] diagnosed at most once,
    exactly when that type is null; and without a [lookupBoolType] call no
    lookup is made and nothing is diagnosed. *)
Theorem stdlib_and_bool_computed_once
  (ctxStdlibModule : option nat) (getParentModule : nat -> nat)
  (boolLookup : nat -> LookupResult) (getDeclaredType : nat -> nat)
  (rs : list Request) (tc0 : TCState) :
  StdlibModule tc0 = None -> boolType tc0 = None ->
  let '(ans, tc) := run ctxStdlibModule getParentModule boolLookup getDeclaredType rs tc0 in
  match rs with
  | [] => tc = tc0
  | r :: _ =>
      let m := match ctxStdlibModule with Some m => m | None => getParentModule (req_dc r) end in
      StdlibModule tc = Some m /\ recorded tc = recorded tc0 ++ [m]
  end
  /\ (forall m, In (AnsModule m) ans -> StdlibModule tc = Some m)
  /\ (forall t, In (AnsBoolType t) ans ->
        exists m, StdlibModule tc = Some m /\ lookups tc = lookups tc0 ++ [m]
          /\ t = bool_of getDeclaredType (boolLookup m)
          /\ diags tc = diags tc0 ++ match t with None => [bool_type_broken] | Some _ => [] end)
  /\ ((forall dc, ~ In (ReqBoolType dc) rs) ->
        lookups tc = lookups tc0 /\ diags tc = diags tc0).
Proof.
  intros Hs Hb.
  assert (HC : consistent ctxStdlibModule boolLookup getDeclaredType tc0 tc0)
    by (apply consistent_init; assumption).
  pose proof (run_consistent ctxStdlibModule getParentModule boolLookup getDeclaredType
                tc0 rs tc0 HC) as Hrun.
  pose proof (fun r rs' (E : rs = r :: rs') =>
    run_first ctxStdlibModule getParentModule boolLookup getDeclaredType tc0 rs' r Hs Hb)
    as Hfirst.
  destruct (run ctxStdlibModule getParentModule boolLookup getDeclaredType rs tc0)
    as [ans tc] eqn:Hr.
  destruct Hrun as ([Ha Hmod Hc Hd] & _ & Hm & Hbt & Hn).
  split.
  { destruct rs as [|r rs'].
    - simpl in Hr. now inversion Hr.
    - specialize (Hfirst r rs' eq_refl). rewrite Hr in Hfirst. simpl in Hfirst.
      split; [exact Hfirst|]. exact (proj1 (Hmod _ Hfirst)). }
  split; [exact Hm|].
  split; [intros t Ht; apply Hd, Hbt, Ht|].
  intros Hno. apply Hc. rewrite (Hn Hno). exact Hb.
Qed.

(** No standard library in the context and a broken [Bool]: the first
    [lookupBoolType] fixes the module to its caller's parent module and
    diagnoses once; the later calls reuse both. *)
Lemma stdlib_and_bool_computed_once_witness :
  run None (fun dc => 100 + dc) (fun _ => LookupFailed) (fun d => d)
    [ReqBoolType 1; ReqStdlibModule 2; ReqBoolType 3] (mkTC None None [] [] [])
  = ([AnsBoolType None; AnsModule 101; AnsBoolType None],
     mkTC (Some 101) (Some None) [101] [101] [bool_type_broken])
  /\ StdlibModule (mkTC None None [] [] []) = None
  /\ boolType (mkTC None None [] [] []) = None
  /\ let '(ans, tc) := run None (fun dc => 100 + dc) (fun _ => LookupFailed) (fun d => d)
       [ReqBoolType 1; ReqStdlibModule 2; ReqBoolType 3] (mkTC None None [] [] []) in
     (StdlibModule tc = Some 101 /\ recorded tc = [101])
     /\ (forall m, In (AnsModule m) ans -> StdlibModule tc = Some m)
     /\ (forall t, In (AnsBoolType t) ans ->
          exists m, StdlibModule tc = Some m /\ lookups tc = [] ++ [m]
            /\ t = bool_of (fun d => d) ((fun _ => LookupFailed) m)
            /\ diags tc = [] ++ match t with None => [bool_type_broken] | Some _ => [] end)
     /\ ((forall dc, ~ In (ReqBoolType dc) [ReqBoolType 1; ReqStdlibModule 2; ReqBoolType 3]) ->
          lookups tc = [] /\ diags tc = []).
Proof.
  split; [reflexivity|]. split; [reflexivity|]. split; [reflexivity|].
  exact (stdlib_and_bool_computed_once None (fun dc => 100 + dc)
           (fun _ => LookupFailed) (fun d => d)
           [ReqBoolType 1; ReqStdlibModule 2; ReqBoolType 3]
           (mkTC None None [] [] []) eq_refl eq_refl).
Defined.

End StdlibCacheFacts.

(** ** [performTypeChecking]: proofs *)
Module DriverFacts.
Import Scheduler Driver.

Lemma visible_event_quiet E :
  Forall visible_event E ->
  checks E = [] /\ contextualized E = [] /\ filter is_objc_diag E = [].
Proof.
  induction 1 as [|e E He _ IH]; [auto|].
  destruct e; simpl in He; try contradiction; simpl; exact IH.
Qed.

Section Phases.

Variable mayConform : nat -> bool.
Variable extendedNominal : nat -> option nat.
Variable bindExtensionDecl : nat -> State -> Growth.
Variable validateDecl : nat -> State -> Growth.
Variable typeCheckDecl : nat -> bool -> State -> Growth.
Variable typeCheckTopLevelCodeDecl : nat -> State -> Growth.

Local Abbreviation visible_decls :=
  (Driver.visible_decls mayConform extendedNominal bindExtensionDecl validateDecl).
Local Abbreviation visible_files :=
  (Driver.visible_files mayConform extendedNominal bindExtensionDecl validateDecl).
Local Abbreviation visible_modules :=
  (Driver.visible_modules mayConform extendedNominal bindExtensionDecl validateDecl).
Local Abbreviation first_pass := (Driver.first_pass typeCheckDecl).
Local Abbreviation second_pass := (Driver.second_pass typeCheckDecl typeCheckTopLevelCodeDecl).

Lemma visible_decls_events ds : forall st evs,
  exists E, snd (visible_decls ds st evs) = evs ++ E /\ Forall visible_event E.
Proof.
  induction ds as [|d ds IH]; intros st evs; simpl.
  - exists []. now rewrite app_nil_r.
  - assert (Hd : exists E, snd (visible_decl mayConform extendedNominal bindExtensionDecl
                               validateDecl d st evs) = evs ++ E /\ Forall visible_event E).
    { destruct d as [n|n|n|n]; simpl.
      - destruct (mayConform n); [destruct (extendedNominal n) as [nom|]|]; simpl.
        + exists [EvBindExtension n; EvValidateDecl nom].
          rewrite <- app_assoc. split; [reflexivity|repeat constructor].
        + exists [EvBindExtension n]. split; [reflexivity|repeat constructor].
        + exists [EvBindExtension n]. split; [reflexivity|repeat constructor].
      - destruct (mayConform n); simpl.
        + exists [EvValidateDecl n]. split; [reflexivity|repeat constructor].
        + exists []. split; [now rewrite app_nil_r|constructor].
      - exists []. split; [now rewrite app_nil_r|constructor].
      - exists []. split; [now rewrite app_nil_r|constructor]. }
    destruct (visible_decl mayConform extendedNominal bindExtensionDecl validateDecl d st evs)
      as [st1 evs1].
    destruct Hd as (E1 & He1 & HF1). simpl in He1. subst evs1.
    destruct (IH st1 (evs ++ E1)) as (E2 & He2 & HF2).
    exists (E1 ++ E2). rewrite He2, app_assoc. split; [reflexivity|].
    now apply Forall_app.
Qed.

Lemma visible_files_events fs : forall st evs,
  exists E, snd (visible_files fs st evs) = evs ++ E /\ Forall visible_event E.
Proof.
  induction fs as [|[ds|] fs IH]; intros st evs; simpl.
  - exists []. now rewrite app_nil_r.
  - destruct (visible_decls_events ds st evs) as (E1 & He1 & HF1).
    destruct (visible_decls ds st evs) as [st1 evs1]. simpl in He1. subst evs1.
    destruct (IH st1 (evs ++ E1)) as (E2 & He2 & HF2).
    exists (E1 ++ E2). rewrite He2, app_assoc. split; [reflexivity|].
    now apply Forall_app.
  - apply IH.
Qed.

Lemma visible_modules_result ms : forall found st evs,
  let '(found', _, evs') := visible_modules ms found st evs in
  found' = found || existsb (fun m => String.eqb (im_name m) "Foundation"%string) ms
  /\ exists E, evs' = evs ++ E /\ Forall visible_event E.
Proof.
  induction ms as [|m ms IH]; intros found st evs; simpl.
  - split; [now rewrite orb_false_r|]. exists []. now rewrite app_nil_r.
  - destruct (visible_files_events (im_files m) st evs) as (E1 & He1 & HF1).
    destruct (visible_files (im_files m) st evs) as [st1 evs1]. simpl in He1. subst evs1.
    specialize (IH (if String.eqb (im_name m) "Foundation"%string then true else found)
                  st1 (evs ++ E1)).
    destruct (visible_modules ms _ st1 (evs ++ E1)) as [[found' st'] evs'].
    destruct IH as [Hf (E2 & He2 & HF2)]. split.
    + rewrite Hf. destruct (String.eqb (im_name m) "Foundation"%string); simpl;
        [now rewrite orb_true_r|reflexivity].
    + exists (E1 ++ E2). rewrite He2, app_assoc. split; [reflexivity|].
      now apply Forall_app.
Qed.

Lemma first_pass_events ds : forall st evs,
  snd (first_pass ds st evs)
  = evs ++ map (fun d => EvTypeCheckDecl (fileDeclId d) true)
                (filter (fun d => negb (isTopLevelCode d)) ds).
Proof.
  induction ds as [|d ds IH]; intros st evs; simpl.
  - now rewrite app_nil_r.
  - destruct (isTopLevelCode d); simpl.
    + apply IH.
    + rewrite IH, <- app_assoc. reflexivity.
Qed.

Lemma second_pass_events ds : forall hasTLC st evs,
  let '(hasTLC', _, evs') := second_pass ds hasTLC st evs in
  hasTLC' = hasTLC || existsb isTopLevelCode ds
  /\ evs' = evs ++ map (fun d => match d with
                                 | FTopLevelCode n => EvTopLevelCodeDecl n
                                 | _ => EvTypeCheckDecl (fileDeclId d) false
                                 end) ds.
Proof.
  induction ds as [|d ds IH]; intros hasTLC st evs; simpl.
  - now rewrite orb_false_r, app_nil_r.
  - destruct d as [n|n|n|n]; simpl;
      match goal with
      | |- context [second_pass ds ?h ?s ?e] =>
          specialize (IH h s e); destruct (second_pass ds h s e) as [[h' s'] e']
      end;
      destruct IH as [Hh He]; rewrite Hh, He, <- app_assoc; simpl;
      (split; [|reflexivity]); destruct hasTLC; reflexivity.
Qed.

End Phases.

Lemma checks_app l1 l2 : checks (l1 ++ l2) = checks l1 ++ checks l2.
Proof. unfold checks. apply flat_map_app. Qed.

Lemma contextualized_app l1 l2 :
  contextualized (l1 ++ l2) = contextualized l1 ++ contextualized l2.
Proof. unfold contextualized. apply flat_map_app. Qed.

Lemma checks_passes_first ds :
  checks (map (fun d => EvTypeCheckDecl (fileDeclId d) true)
              (filter (fun d => negb (isTopLevelCode d)) ds))
  = map (fun d => EvTypeCheckDecl (fileDeclId d) true)
        (filter (fun d => negb (isTopLevelCode d)) ds).
Proof.
  induction (filter (fun d => negb (isTopLevelCode d)) ds) as [|d l IH]; simpl;
    [reflexivity|now rewrite IH].
Qed.

Lemma checks_passes_second ds :
  checks (map (fun d => match d with
                        | FTopLevelCode n => EvTopLevelCodeDecl n
                        | _ => EvTypeCheckDecl (fileDeclId d) false
                        end) ds)
  = map (fun d => match d with
                  | FTopLevelCode n => EvTopLevelCodeDecl n
                  | _ => EvTypeCheckDecl (fileDeclId d) false
                  end) ds.
Proof. induction ds as [|[n|n|n|n] ds IH]; simpl; try rewrite IH; reflexivity. Qed.

Lemma contextualized_passes ds :
  contextualized (map (fun d => EvTypeCheckDecl (fileDeclId d) true)
                      (filter (fun d => negb (isTopLevelCode d)) ds)
                  ++ map (fun d => match d with
                                   | FTopLevelCode n => EvTopLevelCodeDecl n
                                   | _ => EvTypeCheckDecl (fileDeclId d) false
                                   end) ds) = [].
Proof.
  rewrite contextualized_app.
  induction (filter (fun d => negb (isTopLevelCode d)) ds) as [|d l IH]; simpl;
    [|exact IH].
  induction ds as [|[n|n|n|n] ds IH2]; simpl; auto.
Qed.

Lemma objc_passes ds :
  filter is_objc_diag
    (map (fun d => EvTypeCheckDecl (fileDeclId d) true)
         (filter (fun d => negb (isTopLevelCode d)) ds)
     ++ map (fun d => match d with
                      | FTopLevelCode n => EvTopLevelCodeDecl n
                      | _ => EvTypeCheckDecl (fileDeclId d) false
                      end) ds) = [].
Proof.
  rewrite filter_app.
  induction (filter (fun d => negb (isTopLevelCode d)) ds) as [|d l IH]; simpl;
    [|exact IH].
  induction ds as [|[n|n|n|n] ds IH2]; simpl; auto.
Qed.

Section Perform.

Variable performNameBinding : nat -> SourceFile -> SourceFile.
Variable visibleModules : SourceFile -> list ImportedModule.
Variable mayConform : nat -> bool.
Variable extendedNominal : nat -> option nat.
Variable bindExtensionDecl : nat -> State -> Growth.
Variable validateDecl : nat -> State -> Growth.
Variable typeCheckDecl : nat -> bool -> State -> Growth.
Variable typeCheckTopLevelCodeDecl : nat -> State -> Growth.
Variable processREPLTopLevel : nat -> State -> Growth.
Variable hadError : list DEvent -> bool.
Variable EnableObjCAttrRequiresObjCModule : bool.
Variables typeCheckAbstractFunctionBody handleExternalDecl computeCaptures
  typeCheckDeclFirstPass : nat -> State -> Growth.

Local Abbreviation performTypeChecking :=
  (Driver.performTypeChecking performNameBinding visibleModules mayConform extendedNominal
     bindExtensionDecl validateDecl typeCheckDecl typeCheckTopLevelCodeDecl
     processREPLTopLevel hadError EnableObjCAttrRequiresObjCModule
     typeCheckAbstractFunctionBody handleExternalDecl computeCaptures typeCheckDeclFirstPass).

Lemma perform_trace fuel StartElem SF ctx SF' ctx' evs :
  performTypeChecking fuel StartElem SF ctx = Some (SF', ctx', evs) ->
  (Stage SF = TypeChecked /\ SF' = SF /\ ctx' = ctx /\ evs = [])
  \/ (Stage SF <> TypeChecked
      /\ SF' = setStage TypeChecked (performNameBinding StartElem SF)
      /\ checks evs = two_passes (skipn StartElem (Decls SF'))
      /\ contextualized evs
         = (if existsb isTopLevelCode (skipn StartElem (Decls SF'))
            then [skipn StartElem (Decls SF')] else [])
      /\ filter is_objc_diag evs
         = match FirstObjCAttrLoc SF' with
           | Some L =>
               if EnableObjCAttrRequiresObjCModule && kind_eqb (Kind SF') Main
                  && (StartElem =? 0)
                  && negb (importsFoundation (visibleModules (performNameBinding StartElem SF)))
               then [EvObjCWithoutModule L] else []
           | None => []
           end).
Proof.
  unfold Driver.performTypeChecking, importsFoundation.
  destruct (stage_eqb (Stage SF) TypeChecked) eqn:Hst.
  - intros H. inversion H. subst SF' ctx' evs. left.
    destruct (Stage SF); try discriminate. auto.
  - intros H. right. split; [destruct (Stage SF); discriminate|]. revert H.
    set (SF1 := performNameBinding StartElem SF).
    set (st0 := mkState (ctx_ExternalDefinitions ctx)
                  (ctx_LastCheckedExternalDefinition ctx) [] [] []).
    pose proof (visible_modules_result mayConform extendedNominal bindExtensionDecl
                  validateDecl (visibleModules SF1) false st0
                  [EvNameBinding StartElem; EvGetStdlibModule]) as HV.
    destruct (Driver.visible_modules mayConform extendedNominal bindExtensionDecl
                validateDecl (visibleModules SF1) false st0
                [EvNameBinding StartElem; EvGetStdlibModule]) as [[found st1] evs1].
    destruct HV as [Hf (E & He & HF)]. simpl in Hf.
    destruct (visible_event_quiet E HF) as (HcE & HxE & HoE).
    assert (H1 : checks evs1 = [] /\ contextualized evs1 = []
                 /\ filter is_objc_diag evs1 = []).
    { subst evs1. rewrite checks_app, contextualized_app, filter_app, HcE, HxE, HoE.
      auto. }
    clear He HcE HxE HoE. destruct H1 as (Hc1 & Hx1 & Ho1).
    set (ds := skipn StartElem (Decls SF1)).
    pose proof (first_pass_events typeCheckDecl ds st1 evs1) as HP1.
    destruct (Driver.first_pass typeCheckDecl ds st1 evs1) as [st2 evs2].
    simpl in HP1.
    pose proof (second_pass_events typeCheckDecl typeCheckTopLevelCodeDecl ds false st2 evs2)
      as HP2.
    destruct (Driver.second_pass typeCheckDecl typeCheckTopLevelCodeDecl ds false st2 evs2)
      as [[h st3] evs3].
    destruct HP2 as [Hh He3]. simpl in Hh.
    assert (H3 : checks evs3 = two_passes ds /\ contextualized evs3 = []
                 /\ filter is_objc_diag evs3 = []).
    { rewrite He3, HP1, <- app_assoc.
      assert (Htp : checks (two_passes ds) = two_passes ds
                    /\ contextualized (two_passes ds) = []
                    /\ filter is_objc_diag (two_passes ds) = []).
      { unfold two_passes. rewrite checks_app, checks_passes_first, checks_passes_second.
        split; [reflexivity|]. split; [apply contextualized_passes|apply objc_passes]. }
      destruct Htp as (Hct & Hxt & Hot). fold (two_passes ds).
      rewrite checks_app, contextualized_app, filter_app, Hc1, Hx1, Ho1, Hct, Hxt, Hot.
      auto. }
    clear He3 HP1. destruct H3 as (Hc3 & Hx3 & Ho3).
    cbv beta iota.
    remember (if h then evs3 ++ [EvContextualize ds] else evs3) as evs4 eqn:He4.
    assert (H4 : checks evs4 = two_passes ds
                 /\ contextualized evs4 = (if existsb isTopLevelCode ds then [ds] else [])
                 /\ filter is_objc_diag evs4 = []).
    { subst evs4 h. destruct (existsb isTopLevelCode ds);
        rewrite ?checks_app, ?contextualized_app, ?filter_app, Hc3, Hx3, Ho3;
        simpl; rewrite ?app_nil_r; auto. }
    clear He4. destruct H4 as (Hc4 & Hx4 & Ho4).
    destruct (kind_eqb (Kind SF1) REPL && negb (hadError evs4)); cbv beta iota;
      [set (evs5 := evs4 ++ [EvProcessREPL StartElem]);
       set (st5 := apply_growth (processREPLTopLevel StartElem (move_implicit st3))
                     (move_implicit st3))
      |set (evs5 := evs4); set (st5 := move_implicit st3)];
      (assert (H5 : checks evs5 = two_passes ds
                   /\ contextualized evs5 = (if existsb isTopLevelCode ds then [ds] else [])
                   /\ filter is_objc_diag evs5 = [])
         by (unfold evs5; rewrite ?checks_app, ?contextualized_app, ?filter_app,
               Hc4, Hx4, Ho4; simpl; rewrite ?app_nil_r; auto));
      destruct H5 as (Hc5 & Hx5 & Ho5);
      unfold dcall; cbv beta iota; fold evs5 st5;
      destruct (Scheduler.typeCheckFunctionsAndExternalDecls typeCheckAbstractFunctionBody
                  handleExternalDecl computeCaptures typeCheckDeclFirstPass fuel st5)
        as [[st6 lg]|]; try discriminate;
      intros H; inversion H; subst; clear H;
      (split; [reflexivity|]); simpl; fold SF1 ds;
      destruct (FirstObjCAttrLoc SF1) as [L|];
      try destruct (EnableObjCAttrRequiresObjCModule && kind_eqb (Kind SF1) Main
                    && (StartElem =? 0)
                    && negb (existsb (fun m => String.eqb (im_name m) "Foundation"%string)
                               (visibleModules SF1)));
      destruct (kind_eqb (Kind SF1) REPL);
      rewrite ?checks_app, ?contextualized_app, ?filter_app, ?Hc5, ?Hx5, ?Ho5;
      simpl; rewrite ?app_nil_r; auto.
Qed.

(** A source file already type-checked is left alone, and a successful
    run marks the file type-checked: a second call returns at once,
    without any call and without touching the context, so running
    [performTypeChecking] twice is running it once. *)
Theorem performTypeChecking_idempotent fuel StartElem SF ctx SF' ctx' evs :
  performTypeChecking fuel StartElem SF ctx = Some (SF', ctx', evs) ->
  Stage SF' = TypeChecked
  /\ forall fuel' StartElem' ctx'',
       performTypeChecking fuel' StartElem' SF' ctx'' = Some (SF', ctx'', []).
Proof.
  intros H.
  destruct (perform_trace _ _ _ _ _ _ _ H) as [(Hs & -> & _)|(_ & -> & _)];
    (split; [|intros fuel' StartElem' ctx''; unfold Driver.performTypeChecking]).
  - exact Hs.
  - now rewrite Hs.
  - reflexivity.
  - reflexivity.
Qed.


(** The diagnostic about [@objc] without the Foundation module is
    emitted at most once, at [FirstObjCAttrLoc], and only when the option
    asks for it, the file is the main file, checking starts at the first
    declaration and no visible module is named Foundation. *)
Theorem performTypeChecking_objc_diagnostic fuel StartElem SF ctx SF' ctx' evs L :
  performTypeChecking fuel StartElem SF ctx = Some (SF', ctx', evs) ->
  In (EvObjCWithoutModule L) evs ->
  EnableObjCAttrRequiresObjCModule = true /\ Kind SF' = Main /\ StartElem = 0
  /\ FirstObjCAttrLoc SF' = Some L
  /\ (forall m, In m (visibleModules (performNameBinding StartElem SF)) ->
        im_name m <> "Foundation"%string)
  /\ filter is_objc_diag evs = [EvObjCWithoutModule L].
Proof.
  intros H Hin.
  destruct (perform_trace _ _ _ _ _ _ _ H) as [(_ & _ & _ & ->)|(_ & HSF & _ & _ & Ho)].
  - destruct Hin.
  - assert (Hf : In (EvObjCWithoutModule L) (filter is_objc_diag evs))
      by (apply filter_In; split; [exact Hin|reflexivity]).
    rewrite Ho in Hf |- *.
    destruct (FirstObjCAttrLoc SF') as [L'|] eqn:HL; [|destruct Hf].
    destruct (EnableObjCAttrRequiresObjCModule && kind_eqb (Kind SF') Main
              && (StartElem =? 0)
              && negb (importsFoundation (visibleModules (performNameBinding StartElem SF))))
      eqn:Hc; [|destruct Hf].
    destruct Hf as [Hf|[]]. inversion Hf; subst L'.
    apply andb_true_iff in Hc as [Hc Hn]. apply andb_true_iff in Hc as [Hc Hz].
    apply andb_true_iff in Hc as [He Hk].
    apply Nat.eqb_eq in Hz. apply negb_true_iff in Hn.
    split; [exact He|]. split; [destruct (Kind SF'); try discriminate; reflexivity|].
    split; [exact Hz|]. split; [reflexivity|]. split; [|reflexivity].
    intros m Hm Heq. unfold importsFoundation in Hn.
    assert (Hx : existsb (fun m => String.eqb (im_name m) "Foundation"%string)
                   (visibleModules (performNameBinding StartElem SF)) = true)
      by (apply existsb_exists; exists m; split; [exact Hm|now apply String.eqb_eq]).
    congruence.
Qed.

End Perform.

(** The run of the example on the main file from its first declaration,
    without Foundation among the visible modules. *)
Lemma performTypeChecking_idempotent_witness :
  performTypeChecking DriverExamples.dx_nameBinding DriverExamples.dx_visible
    DriverExamples.dx_mayConform DriverExamples.dx_extendedNominal
    DriverExamples.dx_none DriverExamples.dx_none DriverExamples.dx_typeCheckDecl
    DriverExamples.dx_none DriverExamples.dx_none DriverExamples.dx_hadError true
    DriverExamples.dx_none DriverExamples.dx_none DriverExamples.dx_none
    DriverExamples.dx_none 5 0 DriverExamples.dx_file DriverExamples.dx_context
  = Some (mkSourceFile [FOther 1; FNominal 2; FTopLevelCode 3] TypeChecked Main (Some 42),
          mkContext [] 0,
          [EvNameBinding 0; EvGetStdlibModule; EvValidateDecl 20;
           EvTypeCheckDecl 1 true; EvTypeCheckDecl 2 true;
           EvTypeCheckDecl 1 false; EvTypeCheckDecl 2 false; EvTopLevelCodeDecl 3;
           EvContextualize [FOther 1; FNominal 2; FTopLevelCode 3];
           EvFunctionsAndExternals [EvBody 5; EvCaptures 5];
           EvObjCWithoutModule 42; EvVerify; EvVerifyClangModules])
  /\ Stage (mkSourceFile [FOther 1; FNominal 2; FTopLevelCode 3] TypeChecked Main (Some 42))
     = TypeChecked
  /\ forall fuel' StartElem' ctx'',
       performTypeChecking DriverExamples.dx_nameBinding DriverExamples.dx_visible
         DriverExamples.dx_mayConform DriverExamples.dx_extendedNominal
         DriverExamples.dx_none DriverExamples.dx_none DriverExamples.dx_typeCheckDecl
         DriverExamples.dx_none DriverExamples.dx_none DriverExamples.dx_hadError true
         DriverExamples.dx_none DriverExamples.dx_none DriverExamples.dx_none
         DriverExamples.dx_none fuel' StartElem'
         (mkSourceFile [FOther 1; FNominal 2; FTopLevelCode 3] TypeChecked Main (Some 42))
         ctx''
       = Some (mkSourceFile [FOther 1; FNominal 2; FTopLevelCode 3] TypeChecked Main (Some 42),
               ctx'', []).
Proof.
  assert (H : performTypeChecking DriverExamples.dx_nameBinding DriverExamples.dx_visible
    DriverExamples.dx_mayConform DriverExamples.dx_extendedNominal
    DriverExamples.dx_none DriverExamples.dx_none DriverExamples.dx_typeCheckDecl
    DriverExamples.dx_none DriverExamples.dx_none DriverExamples.dx_hadError true
    DriverExamples.dx_none DriverExamples.dx_none DriverExamples.dx_none
    DriverExamples.dx_none 5 0 DriverExamples.dx_file DriverExamples.dx_context
  = Some (mkSourceFile [FOther 1; FNominal 2; FTopLevelCode 3] TypeChecked Main (Some 42),
          mkContext [] 0,
          [EvNameBinding 0; EvGetStdlibModule; EvValidateDecl 20;
           EvTypeCheckDecl 1 true; EvTypeCheckDecl 2 true;
           EvTypeCheckDecl 1 false; EvTypeCheckDecl 2 false; EvTopLevelCodeDecl 3;
           EvContextualize [FOther 1; FNominal 2; FTopLevelCode 3];
           EvFunctionsAndExternals [EvBody 5; EvCaptures 5];
           EvObjCWithoutModule 42; EvVerify; EvVerifyClangModules])) by reflexivity.
  split; [exact H|]. exact (performTypeChecking_idempotent _ _ _ _ _ _ _ _ _ _ _ _ _ _ _
                              _ _ _ _ _ _ _ H).
Defined.


(** The run of the first example emits the diagnostic, at location 42. *)
Lemma performTypeChecking_objc_diagnostic_witness :
  In (EvObjCWithoutModule 42)
     [EvNameBinding 0; EvGetStdlibModule; EvValidateDecl 20;
      EvTypeCheckDecl 1 true; EvTypeCheckDecl 2 true;
      EvTypeCheckDecl 1 false; EvTypeCheckDecl 2 false; EvTopLevelCodeDecl 3;
      EvContextualize [FOther 1; FNominal 2; FTopLevelCode 3];
      EvFunctionsAndExternals [EvBody 5; EvCaptures 5];
      EvObjCWithoutModule 42; EvVerify; EvVerifyClangModules]
  /\ true = true /\ Kind (mkSourceFile [FOther 1; FNominal 2; FTopLevelCode 3]
                           TypeChecked Main (Some 42)) = Main
  /\ 0 = 0
  /\ FirstObjCAttrLoc (mkSourceFile [FOther 1; FNominal 2; FTopLevelCode 3]
                         TypeChecked Main (Some 42)) = Some 42
  /\ (forall m, In m (DriverExamples.dx_visible
                        (DriverExamples.dx_nameBinding 0 DriverExamples.dx_file)) ->
        im_name m <> "Foundation"%string)
  /\ filter is_objc_diag
       [EvNameBinding 0; EvGetStdlibModule; EvValidateDecl 20;
        EvTypeCheckDecl 1 true; EvTypeCheckDecl 2 true;
        EvTypeCheckDecl 1 false; EvTypeCheckDecl 2 false; EvTopLevelCodeDecl 3;
        EvContextualize [FOther 1; FNominal 2; FTopLevelCode 3];
        EvFunctionsAndExternals [EvBody 5; EvCaptures 5];
        EvObjCWithoutModule 42; EvVerify; EvVerifyClangModules]
     = [EvObjCWithoutModule 42].
Proof.
  assert (Hin : In (EvObjCWithoutModule 42)
     [EvNameBinding 0; EvGetStdlibModule; EvValidateDecl 20;
      EvTypeCheckDecl 1 true; EvTypeCheckDecl 2 true;
      EvTypeCheckDecl 1 false; EvTypeCheckDecl 2 false; EvTopLevelCodeDecl 3;
      EvContextualize [FOther 1; FNominal 2; FTopLevelCode 3];
      EvFunctionsAndExternals [EvBody 5; EvCaptures 5];
      EvObjCWithoutModule 42; EvVerify; EvVerifyClangModules])
    by (simpl; tauto).
  assert (H : performTypeChecking DriverExamples.dx_nameBinding DriverExamples.dx_visible
    DriverExamples.dx_mayConform DriverExamples.dx_extendedNominal
    DriverExamples.dx_none DriverExamples.dx_none DriverExamples.dx_typeCheckDecl
    DriverExamples.dx_none DriverExamples.dx_none DriverExamples.dx_hadError true
    DriverExamples.dx_none DriverExamples.dx_none DriverExamples.dx_none
    DriverExamples.dx_none 5 0 DriverExamples.dx_file DriverExamples.dx_context
  = Some (mkSourceFile [FOther 1; FNominal 2; FTopLevelCode 3] TypeChecked Main (Some 42),
          mkContext [] 0,
          [EvNameBinding 0; EvGetStdlibModule; EvValidateDecl 20;
           EvTypeCheckDecl 1 true; EvTypeCheckDecl 2 true;
           EvTypeCheckDecl 1 false; EvTypeCheckDecl 2 false; EvTopLevelCodeDecl 3;
           EvContextualize [FOther 1; FNominal 2; FTopLevelCode 3];
           EvFunctionsAndExternals [EvBody 5; EvCaptures 5];
           EvObjCWithoutModule 42; EvVerify; EvVerifyClangModules])) by reflexivity.
  split; [exact Hin|].
  exact (performTypeChecking_objc_diagnostic DriverExamples.dx_nameBinding
           DriverExamples.dx_visible DriverExamples.dx_mayConform
           DriverExamples.dx_extendedNominal DriverExamples.dx_none DriverExamples.dx_none
           DriverExamples.dx_typeCheckDecl DriverExamples.dx_none DriverExamples.dx_none
           DriverExamples.dx_hadError true DriverExamples.dx_none DriverExamples.dx_none
           DriverExamples.dx_none DriverExamples.dx_none 5 0 DriverExamples.dx_file
           DriverExamples.dx_context _ _ _ 42 H Hin).
Defined.

(** [typeCheckExternalDefinitions] runs only on a type-checked file; it
    handles exactly the external definitions from the context's cursor on,
    those appended meanwhile included, leaves the cursor at the end, and,
    its checker starting with no function, checks the bodies of exactly
    the functions the collaborators define along the way, each once. *)
Theorem typeCheckExternalDefinitions_new_only
  (typeCheckAbstractFunctionBody handleExternalDecl computeCaptures typeCheckDeclFirstPass
     : nat -> State -> Growth)
  (fuel : nat) (SF : SourceFile) (ctx ctx' : Context) (lg : Log) :
  typeCheckExternalDefinitions typeCheckAbstractFunctionBody handleExternalDecl
    computeCaptures typeCheckDeclFirstPass fuel SF ctx = Some (ctx', lg) ->
  Stage SF = TypeChecked
  /\ ctx_ExternalDefinitions ctx' = ctx_ExternalDefinitions ctx ++ lg_ext lg
  /\ ctx_LastCheckedExternalDefinition ctx' = length (ctx_ExternalDefinitions ctx')
  /\ ext_processed (trace lg)
     = skipn (ctx_LastCheckedExternalDefinition ctx) (ctx_ExternalDefinitions ctx')
  /\ Permutation (bodies (trace lg)) (lg_funcs lg ++ lg_impl lg).
Proof.
  unfold typeCheckExternalDefinitions.
  destruct (stage_eqb (Stage SF) TypeChecked) eqn:Hst; [|discriminate].
  set (st0 := mkState (ctx_ExternalDefinitions ctx) (ctx_LastCheckedExternalDefinition ctx)
                      [] [] []).
  unfold Scheduler.typeCheckFunctionsAndExternalDecls.
  destruct (sched typeCheckAbstractFunctionBody handleExternalDecl computeCaptures
              typeCheckDeclFirstPass fuel 0 (LastCheckedExternalDefinition st0) st0 empty_log)
    as [[[[fi ce] st] lg1]|] eqn:Hs; [|discriminate].
  intros H. inversion H; subst ctx' lg; clear H. simpl.
  destruct (SchedulerFacts.sched_inv _ _ _ _ st0 _ _ _ _ _ _ _ _ _ _
              (SchedulerFacts.Inv_init st0) Hs)
    as ([H1 H2 H3 H4 H5 H6 H7 H8 H9] & Hv & Hi & Hf & Hc).
  split; [destruct (Stage SF); try discriminate; reflexivity|].
  split; [exact H1|].
  assert (Hce : ce = length (ExternalDefinitions st)) by (simpl in *; lia).
  split; [exact Hce|].
  split.
  { rewrite H7. apply firstn_all2. rewrite length_skipn. simpl in *. lia. }
  rewrite H4. replace fi with (length (definedFunctions st)) by lia.
  rewrite firstn_all. rewrite Hi, app_nil_r in H2. exact H2.
Qed.

(** Handling the new external nominal type 5 stages the implicit
    function 3, whose body is then checked. *)
Lemma typeCheckExternalDefinitions_new_only_witness :
  typeCheckExternalDefinitions SchedulerExamples.fx_body SchedulerExamples.fx_ext
    SchedulerExamples.fx_captures SchedulerExamples.fx_decl 10
    (mkSourceFile [] TypeChecked Main None) (mkContext [DFunc 1; DNominal 5] 1)
  = Some (mkContext [DFunc 1; DNominal 5] 2,
          mkLog [EvExtHandle 5; EvBody 3; EvCaptures 3] [] [] [3] [])
  /\ Stage (mkSourceFile [] TypeChecked Main None) = TypeChecked
  /\ ctx_ExternalDefinitions (mkContext [DFunc 1; DNominal 5] 2)
     = ctx_ExternalDefinitions (mkContext [DFunc 1; DNominal 5] 1) ++ []
  /\ ctx_LastCheckedExternalDefinition (mkContext [DFunc 1; DNominal 5] 2)
     = length (ctx_ExternalDefinitions (mkContext [DFunc 1; DNominal 5] 2))
  /\ ext_processed [EvExtHandle 5; EvBody 3; EvCaptures 3]
     = skipn 1 (ctx_ExternalDefinitions (mkContext [DFunc 1; DNominal 5] 2))
  /\ Permutation (bodies [EvExtHandle 5; EvBody 3; EvCaptures 3]) ([] ++ [3]).
Proof.
  assert (H : typeCheckExternalDefinitions SchedulerExamples.fx_body
    SchedulerExamples.fx_ext SchedulerExamples.fx_captures SchedulerExamples.fx_decl 10
    (mkSourceFile [] TypeChecked Main None) (mkContext [DFunc 1; DNominal 5] 1)
  = Some (mkContext [DFunc 1; DNominal 5] 2,
          mkLog [EvExtHandle 5; EvBody 3; EvCaptures 3] [] [] [3] [])) by reflexivity.
  split; [exact H|].
  exact (typeCheckExternalDefinitions_new_only _ _ _ _ _ _ _ _ _ H).
Defined.

End DriverFacts.
